(** * kbStorage: the Firestore record-store facade of the class-record UI

    A shallow embedding of [storage.firebase.js] and the properties of its
    entry and metadata operations.  The repository holds the file in several
    versions: the deterministic-key variant with timetables (the main one
    here), the earlier opaque-id variant ([Plain]) and the strict-mode
    variant that seeds example data ([Seeding]).

    Modelling conventions.
    - A Firestore document is a JavaScript object: a finite map from field
      names to JavaScript values ([gmap string value]).  Field names are
      plain names (no dotted field paths).
    - Strings are sequences of code units below 256 (Latin-1); numbers are
      the integers.
    - Every [await]ed backend request consults a script of coming backend
      answers ([faults]): [Some e] makes the request reject with [e], any
      rejection the hosted service may produce; [None], or an exhausted
      script, lets it go through.  [console.error] logging has no effect on
      what is returned or stored and is left out. *)

From stdpp Require Import gmap strings list fin_maps pretty sorting.
From Stdlib Require Import ZArith Ascii String.

Local Set Warnings "-register-all".
Local Open Scope string_scope.
Local Open Scope Z_scope.

(** ** JavaScript values *)

Inductive value :=
  | VUndef
  | VNull
  | VBool (b : bool)
  | VNum (n : Z)
  | VStr (s : string)
  | VArr (l : list value)
  | VObj (o : gmap string value).

Module Js.

(** [!!v]: JavaScript truthiness. *)
Definition truthy (v : value) : bool :=
  match v with
  | VUndef | VNull => false
  | VBool b => b
  | VNum n => negb (n =? 0)
  | VStr s => negb (String.eqb s "")
  | VArr _ | VObj _ => true
  end.

(** [a || b] *)
Definition or_else (a b : value) : value := if truthy a then a else b.

(** [o.k] on an object: [undefined] when the property is missing. *)
Definition get (o : gmap string value) (k : string) : value :=
  default VUndef (o !! k).

(** [v.k] on any value other than [null] and [undefined] (which throw):
    primitives and arrays have none of the property names the facade
    reads. *)
Definition prop (v : value) (k : string) : value :=
  match v with
  | VObj o => get o k
  | _ => VUndef
  end.

Fixpoint join (sep : string) (l : list string) : string :=
  match l with
  | [] => ""
  | [s] => s
  | s :: r => s +:+ sep +:+ join sep r
  end.

(** [String(v)]. *)
Fixpoint to_string (v : value) : string :=
  match v with
  | VUndef => "undefined"
  | VNull => "null"
  | VBool true => "true"
  | VBool false => "false"
  | VNum n => pretty n
  | VStr s => s
  | VArr l =>
      join "," (map (λ x, match x with
                          | VUndef | VNull => ""
                          | _ => to_string x
                          end) l)
  | VObj _ => "[object Object]"
  end.

(** White space of [\s] and of [trim] among the code units below 256:
    TAB, LF, VT, FF, CR, space and the no-break space. *)
Definition is_space (c : ascii) : bool :=
  let n := nat_of_ascii c in
  ((9 <=? n) && (n <=? 13) || (n =? 32) || (n =? 160))%nat.

(** The class [A-Za-z0-9_\-]. *)
Definition is_id_char (c : ascii) : bool :=
  let n := nat_of_ascii c in
  ((65 <=? n) && (n <=? 90) || (97 <=? n) && (n <=? 122)
   || (48 <=? n) && (n <=? 57) || (n =? 95) || (n =? 45))%nat.

Fixpoint trim_start (s : string) : string :=
  match s with
  | String c r => if is_space c then trim_start r else s
  | EmptyString => ""
  end.

Fixpoint trim_end (s : string) : string :=
  match s with
  | String c r =>
      let r' := trim_end r in
      if is_space c && String.eqb r' "" then "" else String c r'
  | EmptyString => ""
  end.

Definition trim (s : string) : string := trim_end (trim_start s).

(** [s.replace(/\s+/g, '_')]: each maximal run of white space becomes one
    underscore; [in_run] tells that the previous code unit was white
    space. *)
Fixpoint replace_spaces (in_run : bool) (s : string) : string :=
  match s with
  | String c r =>
      if is_space c
      then (if in_run then replace_spaces true r
            else String "_" (replace_spaces true r))
      else String c (replace_spaces false r)
  | EmptyString => ""
  end.

(** [s.replace(/[^A-Za-z0-9_\-]/g, '')] *)
Fixpoint keep_id_chars (s : string) : string :=
  match s with
  | String c r =>
      if is_id_char c then String c (keep_id_chars r) else keep_id_chars r
  | EmptyString => ""
  end.

End Js.

(** Equality of JavaScript values is decidable: what an equality filter of a
    query compares. *)
Fixpoint value_eq_dec (x y : value) : Decision (x = y).
Proof.
  refine (match x, y with
          | VUndef, VUndef => left _
          | VNull, VNull => left _
          | VBool a, VBool b => cast_if (decide (a = b))
          | VNum a, VNum b => cast_if (decide (a = b))
          | VStr a, VStr b => cast_if (decide (a = b))
          | VArr a, VArr b =>
              cast_if (@decide (a = b) (@list_eq_dec _ value_eq_dec a b))
          | VObj a, VObj b =>
              cast_if (@decide (a = b) (@gmap_eq_dec _ _ _ _ value_eq_dec a b))
          | _, _ => right _
          end); congruence.
Defined.

Global Instance value_eq : EqDecision value := value_eq_dec.

(** A string made of characters of the class [A-Za-z0-9_\-] only. *)
Fixpoint only_id_chars (s : string) : bool :=
  match s with
  | String c r => Js.is_id_char c && only_id_chars r
  | EmptyString => true
  end.

(** ** The deterministic entry id *)

(** [safe] of [makeEntryId]; the default parameter [s = ''] replaces
    [undefined] only. *)
Definition safe (s : value) : string :=
  let s := match s with VUndef => VStr "" | _ => s end in
  Js.keep_id_chars
    (Js.replace_spaces false (Js.trim (Js.to_string (Js.or_else s (VStr ""))))).

Definition makeEntryId (entry : gmap string value) : string :=
  safe (Js.get entry "course") +:+ "__" +:+ safe (Js.get entry "date")
    +:+ "__" +:+ safe (Js.get entry "hour").

(** The natural key of an entry: its [course], [date] and [hour] fields. *)
Definition natural_key (entry : gmap string value) : value * value * value :=
  (Js.get entry "course", Js.get entry "date", Js.get entry "hour").

(** ** Errors, outcomes and the world the facade runs in *)

(** A thrown JavaScript [Error]: its [name] and [message]. *)
Record error := { ename : string; emessage : string }.

(** A [TypeError] of the JavaScript engine (property read on [null], call of
    a non-function, ...); the message text is the engine's. *)
Definition type_error (what : string) : error :=
  {| ename := "TypeError"; emessage := what |}.

(** The rejection of [update] on a document that does not exist. *)
Definition no_document : error :=
  {| ename := "FirebaseError"; emessage := "No document to update" |}.

(** [err.message || String(err)]; [String(err)] is reached with an empty
    message only, where [Error.prototype.toString] gives the name. *)
Definition reason_of (e : error) : string :=
  if String.eqb (emessage e) "" then ename e else emessage e.

(** [String(err)] *)
Definition error_to_string (e : error) : string :=
  if String.eqb (ename e) "" then emessage e
  else if String.eqb (emessage e) "" then ename e
  else ename e +:+ ": " +:+ emessage e.

Inductive outcome (A : Type) :=
  | Ret (a : A)
  | Throw (e : error).
Arguments Ret {A} a.
Arguments Throw {A} e.

(** The hosted database: the singleton [meta/kb_meta] document and the
    [entries] collection, document id to document. *)
Record Db := {
  meta_doc : option (gmap string value);
  entries : gmap string (gmap string value)
}.

Record World := {
  store : Db;
  (** coming backend answers, one per request *)
  faults : list (option error);
  (** ids the client library will generate for [add] *)
  auto_ids : list string;
  (** coming values of [Math.random().toString(36).slice(2, 8)] *)
  randoms : list string;
  (** [new Date().toISOString().slice(0, 10)] *)
  today : string;
  (** what [FieldValue.serverTimestamp()] resolves to *)
  server_time : value
}.

Definition set_store (s : Db) (w : World) : World :=
  {| store := s; faults := faults w; auto_ids := auto_ids w;
     randoms := randoms w; today := today w; server_time := server_time w |}.

Definition set_entries (es : gmap string (gmap string value)) (s : Db) : Db :=
  {| meta_doc := meta_doc s; entries := es |}.

Definition set_meta (m : gmap string value) (s : Db) : Db :=
  {| meta_doc := Some m; entries := entries s |}.

(** The backend has answered one request. *)
Definition tick (w : World) : World :=
  {| store := store w; faults := tail (faults w); auto_ids := auto_ids w;
     randoms := randoms w; today := today w; server_time := server_time w |}.

(** No coming request is rejected. *)
Definition reliable (w : World) : Prop := Forall (λ f, f = None) (faults w).

(** Asynchronous facade code: a state transformer on the world that returns
    or throws. *)
Definition M (A : Type) : Type := World → outcome A * World.

Global Instance M_ret : MRet M := λ A a w, (Ret a, w).
Global Instance M_bind : MBind M := λ A B f m w,
  match m w with
  | (Ret a, w') => f a w'
  | (Throw e, w') => (Throw e, w')
  end.

Definition throw {A} (e : error) : M A := λ w, (Throw e, w).

(** [try { body } catch (err) { handler }] *)
Definition try_catch {A} (body : M A) (handler : error → M A) : M A := λ w,
  match body w with
  | (Ret a, w') => (Ret a, w')
  | (Throw e, w') => handler e w'
  end.

Definition lift {A} (o : outcome A) : M A := λ w, (o, w).

(** What a call returns, and the world it leaves. *)
Definition returned {A} (m : M A) (w : World) : outcome A := fst (m w).
Definition after {A} (m : M A) (w : World) : World := snd (m w).

(** ** The backend *)

(** One request to the hosted service. *)
Definition request {A} (act : Db → outcome A * Db) : M A := λ w,
  match head (faults w) with
  | Some (Some e) => (Throw e, tick w)
  | _ => let '(r, s) := act (store w) in (r, set_store s (tick w))
  end.

(** [db.collection('entries').doc(id).get()]: the snapshot, [None] when
    [snap.exists] is false, else [snap.data()]. *)
Definition doc_get (id : string) : M (option (gmap string value)) :=
  request (λ s, (Ret (entries s !! id), s)).

(** [docRef.update(data)]: the fields of [data] replace those of the
    document, the others stay. *)
Definition doc_update (id : string) (data : gmap string value) : M () :=
  request (λ s,
    match entries s !! id with
    | Some d => (Ret (), set_entries (<[id := data ∪ d]> (entries s)) s)
    | None => (Throw no_document, s)
    end).

(** [docRef.delete()] *)
Definition doc_delete (id : string) : M () :=
  request (λ s, (Ret (), set_entries (delete id (entries s)) s)).

(** [db.collection('entries').add(data)]: a document under a generated id. *)
Definition collection_add (data : gmap string value) : M string := λ w,
  let id := default "" (head (auto_ids w)) in
  let w := {| store := store w; faults := faults w;
              auto_ids := tail (auto_ids w); randoms := randoms w;
              today := today w; server_time := server_time w |} in
  request (λ s, (Ret id, set_entries (<[id := data]> (entries s)) s)) w.

(** Reads and writes of a transaction.  The writes are buffered until the
    commit: they are applied to the transaction's own copy of the store,
    which [run_transaction] throws away unless the commit goes through. *)
Definition tx_get (id : string) : M (option (gmap string value)) := doc_get id.

Definition tx_set (id : string) (data : gmap string value) : M () := λ w,
  (Ret (), set_store (set_entries (<[id := data]> (entries (store w))) (store w)) w).

Definition tx_delete (id : string) : M () := λ w,
  (Ret (), set_store (set_entries (delete id (entries (store w))) (store w)) w).

Definition commit : M () := request (λ s, (Ret (), s)).

(** [db.runTransaction(body)]: all of the body's writes or none. *)
Definition run_transaction {A} (body : M A) : M A := λ w,
  match body w with
  | (Ret a, w') =>
      match commit w' with
      | (Ret _, w'') => (Ret a, w'')
      | (Throw e, w'') => (Throw e, set_store (store w) w'')
      end
  | (Throw e, w') => (Throw e, set_store (store w) w')
  end.

(** Firestore's [set(data, {merge: true})]: the fields of [data] are written
    into the document; a nested map is merged field by field, an empty map
    and every other value replace what was there. *)
Fixpoint merge_value (new old : value) : value :=
  match new, old with
  | VObj a, VObj b =>
      match map_to_list a with
      | [] => new
      | _ => VObj (merge (λ x y, match x, y with
                                 | Some x, Some y => Some (merge_value x y)
                                 | Some x, None => Some x
                                 | None, y => y
                                 end) a b)
      end
  | _, _ => new
  end.

Definition merge_fields (new old : gmap string value) : gmap string value :=
  merge (λ x y, match x, y with
                | Some x, Some y => Some (merge_value x y)
                | Some x, None => Some x
                | None, y => y
                end) new old.

(** The nesting depth of maps in a value, the measure [merge_value]
    descends on. *)
Fixpoint depth (v : value) : nat :=
  match v with
  | VObj o => S (map_fold (λ _ x n, max (depth x) n) 0%nat o)
  | _ => 0%nat
  end.

(** [db.collection('meta').doc('kb_meta').get()] *)
Definition meta_get : M (option (gmap string value)) :=
  request (λ s, (Ret (meta_doc s), s)).

(** [db.collection('meta').doc('kb_meta').set(meta, { merge: true })] *)
Definition meta_set_merge (meta : gmap string value) : M () :=
  request (λ s,
    (Ret (), set_meta (match meta_doc s with
                       | Some d => merge_fields meta d
                       | None => meta
                       end) s)).

(** ** Results *)

(** [{ ok, id?, reason? }] *)
Record result := { ok : bool; rid : option string; reason : option string }.

Definition ok_plain : result := {| ok := true; rid := None; reason := None |}.
Definition ok_id (id : string) : result :=
  {| ok := true; rid := Some id; reason := None |}.
Definition failed (r : string) : result :=
  {| ok := false; rid := None; reason := Some r |}.

(** [{ courses: [], subjects: [], teachers: [] }] *)
Definition empty_meta : gmap string value :=
  {[ "courses" := VArr []; "subjects" := VArr []; "teachers" := VArr [] ]}.

(** [!id] for the id argument of [updateEntry], which is a string when the
    caller passes one ([None] when not): true of the empty string. *)
Definition no_id (id : string) : bool := negb (Js.truthy (VStr id)).

(** What [updateEntry] and [toggleLockEntry] test: [current.locked]. *)
Definition is_locked (d : gmap string value) : bool :=
  Js.truthy (Js.get d "locked").

(** ** The facade, deterministic-key variant *)

Section Facade.

(** The order in which the backend returns the documents of the compound
    [orderBy('date').orderBy('hour')] query. *)
Variable order_by_date_hour :
  list (string * gmap string value) → list (string * gmap string value).

(** [String.prototype.toUpperCase] *)
Variable toUpperCase : string → string.

(** *** Meta *)

Definition loadMeta : M (gmap string value) :=
  try_catch
    (snap ← meta_get;
     match snap with
     | None => mret empty_meta
     | Some data => mret data
     end)
    (λ err, mret empty_meta).

Definition saveMeta (meta : gmap string value) : M result :=
  try_catch
    (meta_set_merge meta;; mret ok_plain)
    (λ err, mret (failed (reason_of err))).

(** *** Entries *)

(** An [orderBy] query returns only the documents that have the field. *)
Definition has_date_hour (p : string * gmap string value) : bool :=
  bool_decide (is_Some (p.2 !! "date")) && bool_decide (is_Some (p.2 !! "hour")).

Definition query_by_date_hour : M (list (string * gmap string value)) :=
  request (λ s,
    (Ret (order_by_date_hour
            (filter (λ p, has_date_hour p = true) (map_to_list (entries s)))), s)).

Definition query_all : M (list (string * gmap string value)) :=
  request (λ s, (Ret (map_to_list (entries s)), s)).

(** [d => ({ id: d.id, ...d.data() })] *)
Definition entry_view (p : string * gmap string value) : gmap string value :=
  p.2 ∪ {[ "id" := VStr p.1 ]}.

Definition loadEntries : M (list (gmap string value)) :=
  try_catch
    (docs ← query_by_date_hour; mret (entry_view <$> docs))
    (λ err,
       try_catch
         (docs ← query_all; mret (entry_view <$> docs))
         (λ err2, mret [])).

Definition addEntry (entry : gmap string value) : M result :=
  try_catch
    (let id := makeEntryId entry in
     run_transaction
       (snap ← tx_get id;
        match snap with
        | Some _ => mret (failed "duplicate")
        | None => tx_set id entry;; mret (ok_id id)
        end))
    (λ err, mret (failed (reason_of err))).

Definition updateEntry (oldId : option string) (data : gmap string value)
  : M result :=
  try_catch
    (match oldId with
     | None => mret (failed "missing id")
     | Some oldId =>
       if no_id oldId then mret (failed "missing id")
       else
         oldSnap ← doc_get oldId;
         match oldSnap with
         | None => mret (failed "not found")
         | Some current =>
             if is_locked current then mret (failed "locked")
             else
               let newId := makeEntryId data in
               if String.eqb newId oldId
               then doc_update oldId data;; mret ok_plain
               else
                 run_transaction
                   (targetSnap ← tx_get newId;
                    match targetSnap with
                    | Some _ => mret (failed "duplicate_target")
                    | None =>
                        checkOld ← tx_get oldId;
                        match checkOld with
                        | None => mret (failed "not_found_during_tx")
                        | Some oldData =>
                            if is_locked oldData then mret (failed "locked")
                            else
                              tx_set newId (data ∪ oldData);;
                              tx_delete oldId;;
                              mret (ok_id newId)
                        end
                    end)
         end
     end)
    (λ err, mret (failed (reason_of err))).

Definition deleteEntryById (id : string) : M result :=
  try_catch
    (doc_delete id;; mret ok_plain)
    (λ err, mret (failed (reason_of err))).

Definition toggleLockEntry (id : string) : M result :=
  try_catch
    (snap ← doc_get id;
     match snap with
     | None => mret (failed "not found")
     | Some current =>
         doc_update id {[ "locked" := VBool (negb (is_locked current)) ]};;
         mret ok_plain
     end)
    (λ err, mret (failed (reason_of err))).

(** *** Courses *)

(** [x.id === id] for a string [id]; [x] is neither [null] nor
    [undefined]. *)
Definition has_id (id : string) (x : value) : bool :=
  match Js.prop x "id" with
  | VStr s => String.eqb s id
  | _ => false
  end.

(** [courses.find(x => x.id === id)]; reading [x.id] throws on a [null]
    element. *)
Fixpoint find_course (id : string) (courses : list value)
  : outcome (option value) :=
  match courses with
  | [] => Ret None
  | (VUndef | VNull) :: _ => Throw (type_error "x is null")
  | x :: rest => if has_id id x then Ret (Some x) else find_course id rest
  end.

(** [courses.filter(c => c.id !== id)] *)
Fixpoint remove_course (id : string) (courses : list value)
  : outcome (list value) :=
  match courses with
  | [] => Ret []
  | (VUndef | VNull) :: _ => Throw (type_error "c is null")
  | x :: rest =>
      match remove_course id rest with
      | Ret rest' => Ret (if has_id id x then rest' else x :: rest')
      | Throw e => Throw e
      end
  end.

(** [(meta.courses || [])] where an array method is called on it next: a
    truthy value that is not an array has no such method. *)
Definition courses_or_empty (meta : gmap string value) : outcome (list value) :=
  match Js.or_else (Js.get meta "courses") (VArr []) with
  | VArr l => Ret l
  | _ => Throw (type_error "not a function")
  end.

Definition getStudentsForCourse (courseId : string) : M value :=
  try_catch
    (meta ← loadMeta;
     courses ← lift (courses_or_empty meta);
     c ← lift (find_course courseId courses);
     match c with
     | Some c => mret (Js.or_else (Js.prop c "students") (VArr []))
     | None => mret (VArr [])
     end)
    (λ err, mret (VArr [])).

(** [name.replace(/\s+/g, '')] *)
Fixpoint remove_spaces (s : string) : string :=
  match s with
  | String c r => if Js.is_space c then remove_spaces r else String c (remove_spaces r)
  | EmptyString => ""
  end.

Definition six_empty : value :=
  VArr [VStr ""; VStr ""; VStr ""; VStr ""; VStr ""; VStr ""].

Definition week : list string := ["mon"; "tue"; "wed"; "thu"; "fri"].

Definition empty_timetable : value :=
  VObj {[ "mon" := six_empty; "tue" := six_empty; "wed" := six_empty;
          "thu" := six_empty; "fri" := six_empty ]}.

Definition addCourse (name : string) (students : value) : M result :=
  try_catch
    (meta ← loadMeta;
     let meta := <["courses" := Js.or_else (Js.get meta "courses") (VArr [])]> meta in
     let id := toUpperCase (remove_spaces name) in
     courses ← lift (courses_or_empty meta);
     found ← lift (find_course id courses);
     match found with
     | Some _ => mret (failed "exists")
     | None =>
         let course := VObj {[ "id" := VStr id; "name" := VStr name;
                               "students" := Js.or_else students (VArr []);
                               "timetable" := empty_timetable ]} in
         let meta := <["courses" := VArr (courses ++ [course])]> meta in
         saveMeta meta;;
         mret (ok_id id)
     end)
    (λ err, mret (failed (reason_of err))).

Definition deleteCourse (id : string) : M result :=
  try_catch
    (meta ← loadMeta;
     courses ← lift (courses_or_empty meta);
     kept ← lift (remove_course id courses);
     saveMeta (<["courses" := VArr kept]> meta);;
     mret ok_plain)
    (λ err, mret (failed (reason_of err))).

(** *** Defaults *)

(** [if (!meta.k) { meta.k = []; changed = true; }] *)
Definition ensure_array (k : string) (mc : gmap string value * bool)
  : gmap string value * bool :=
  if Js.truthy (Js.get mc.1 k) then mc else (<[k := VArr []]> mc.1, true).

(** [while (a.length < 6) a.push('')] *)
Definition pad6 (l : list value) : list value :=
  l ++ replicate (6 - List.length l)%nat (VStr "").

(** One day of a timetable object: an array of six slots is left alone, a
    longer one is cut, a shorter one is filled up, anything else is
    replaced by six empty slots. *)
Definition fix_day (days : gmap string value) (d : string)
  : gmap string value * bool :=
  match Js.get days d with
  | VArr l =>
      if (List.length l =? 6)%nat then (days, false)
      else (<[d := VArr (pad6 (take 6 l))]> days, true)
  | _ => (<[d := six_empty]> days, true)
  end.

(** [ds.forEach(d => ...)] over the days [ds] of a timetable object, the
    flag set as soon as one day is rewritten. *)
Definition fix_days (ds : list string) (acc : gmap string value * bool)
  : gmap string value * bool :=
  foldl (λ acc d, let '(days', ch) := fix_day acc.1 d in (days', acc.2 || ch))
        acc ds.

Definition fix_week (days : gmap string value) : gmap string value * bool :=
  fix_days week (days, false).

(** The body of [forEach(c => ...)] for one course [c]; the flag tells
    whether it set [changed].
    - Reading [c.timetable] throws on [null].
    - On a primitive [c] the assignment [c.timetable = ...] is dropped
      (the script is not in strict mode).  On an array the property it
      creates is no element of the array and is not stored.
    - A truthy timetable that is a primitive has no day arrays and the
      assignment of one is dropped, so reading [.length] throws; on an
      array the day properties are again no elements. *)
Definition ensure_timetable (c : value) : outcome (value * bool) :=
  match c with
  | VUndef | VNull => Throw (type_error "c is null")
  | VObj o =>
      let t := Js.get o "timetable" in
      if negb (Js.truthy t)
      then Ret (VObj (<["timetable" := empty_timetable]> o), true)
      else
        match t with
        | VObj days =>
            let '(days', ch) := fix_week days in
            Ret (VObj (<["timetable" := VObj days']> o), ch)
        | VArr _ => Ret (c, true)
        | _ => Throw (type_error "c.timetable[d] is undefined")
        end
  | _ => Ret (c, true)
  end.

Fixpoint ensure_timetables (courses : list value)
  : outcome (list value * bool) :=
  match courses with
  | [] => Ret ([], false)
  | c :: rest =>
      match ensure_timetable c with
      | Throw e => Throw e
      | Ret (c', ch) =>
          match ensure_timetables rest with
          | Throw e => Throw e
          | Ret (rest', ch') => Ret (c' :: rest', ch || ch')
          end
      end
  end.

(** What [ensureDefaults] does to the loaded [meta] before it saves: the
    three arrays, then the timetable of every course; with the [changed]
    flag. *)
Definition ensure_meta (meta : gmap string value)
  : outcome (gmap string value * bool) :=
  let '(meta, changed) :=
    ensure_array "teachers"
      (ensure_array "subjects" (ensure_array "courses" (meta, false))) in
  match courses_or_empty meta with
  | Throw e => Throw e
  | Ret courses =>
      match ensure_timetables courses with
      | Throw e => Throw e
      | Ret (courses', changed') =>
          Ret (<["courses" := VArr courses']> meta, changed || changed')
      end
  end.

Definition ensureDefaults : M result :=
  try_catch
    (meta ← loadMeta;
     '(meta, changed) ← lift (ensure_meta meta);
     (if changed : bool then saveMeta meta;; mret () else mret ());;
     mret ok_plain)
    (λ err, mret (failed (reason_of err))).

(** *** The exposed API: [window.kbStorage] *)

Inductive call :=
  | LoadMeta
  | SaveMeta (meta : gmap string value)
  | LoadEntries
  | AddEntry (entry : gmap string value)
  | UpdateEntry (oldId : option string) (data : gmap string value)
  | DeleteEntryById (id : string)
  | ToggleLockEntry (id : string)
  | GetStudentsForCourse (courseId : string)
  | AddCourse (name : string) (students : value)
  | DeleteCourse (id : string)
  | EnsureDefaults.

(** A call of the UI, for its effect on the world. *)
Definition run (c : call) : M () :=
  match c with
  | LoadMeta => loadMeta;; mret ()
  | SaveMeta meta => saveMeta meta;; mret ()
  | LoadEntries => loadEntries;; mret ()
  | AddEntry entry => addEntry entry;; mret ()
  | UpdateEntry oldId data => updateEntry oldId data;; mret ()
  | DeleteEntryById id => deleteEntryById id;; mret ()
  | ToggleLockEntry id => toggleLockEntry id;; mret ()
  | GetStudentsForCourse courseId => getStudentsForCourse courseId;; mret ()
  | AddCourse name students => addCourse name students;; mret ()
  | DeleteCourse id => deleteCourse id;; mret ()
  | EnsureDefaults => ensureDefaults;; mret ()
  end.

End Facade.

(** ** The opaque-id variant

    The earlier [storage.firebase.js]: entries live under generated ids and
    [updateEntry] never renames.  Only the two entry operations that differ
    from the deterministic-key variant are given. *)

Module Plain.

Definition addEntry (entry : gmap string value) : M result :=
  try_catch
    (id ← collection_add entry; mret (ok_id id))
    (λ err, mret (failed (reason_of err))).

Definition updateEntry (id : option string) (data : gmap string value)
  : M result :=
  try_catch
    (match id with
     | None => mret (failed "missing id")
     | Some id =>
       if no_id id then mret (failed "missing id")
       else
         snap ← doc_get id;
         match snap with
         | None => mret (failed "not found")
         | Some current =>
             if is_locked current then mret (failed "locked")
             else doc_update id data;; mret ok_plain
         end
     end)
    (λ err, mret (failed (reason_of err))).

End Plain.

(** ** The seeding variant

    The strict-mode [storage.firebase.js] that repairs course records on
    load and seeds example data. *)

Module Seeding.

(** [Math.random().toString(36).slice(2, 8)] *)
Definition random_suffix : M string := λ w,
  (Ret (default "" (head (randoms w))),
   {| store := store w; faults := faults w; auto_ids := auto_ids w;
      randoms := tail (randoms w); today := today w;
      server_time := server_time w |}).

Definition read_clock : M (string * value) := λ w,
  (Ret (today w, server_time w), w).

Fixpoint map_m {A B} (f : A → M B) (l : list A) : M (list B) :=
  match l with
  | [] => mret []
  | x :: r => y ← f x; r' ← map_m f r; mret (y :: r')
  end.

Definition blank_course : value :=
  VObj {[ "id" := VStr ""; "name" := VStr ""; "students" := VArr [] ]}.

(** The repair of one course record [c]:
    [if (!c) return {...}; if (!c.students) c.students = [];
     if (!c.id) c.id = c.name || ('kurs_' + random); return c].
    In strict mode the assignment [c.students = []] throws on a truthy
    primitive.  On an array the two assignments create properties that are
    no elements of it; the id is drawn all the same. *)
Definition repair_course (c : value) : M value :=
  if negb (Js.truthy c) then mret blank_course
  else
    match c with
    | VObj o =>
        let o := if Js.truthy (Js.get o "students") then o
                 else <["students" := VArr []]> o in
        if Js.truthy (Js.get o "id") then mret (VObj o)
        else if Js.truthy (Js.get o "name")
             then mret (VObj (<["id" := Js.get o "name"]> o))
             else r ← random_suffix;
                  mret (VObj (<["id" := VStr ("kurs_" +:+ r)]> o))
    | VArr _ => random_suffix;; mret c
    | _ => throw (type_error "cannot create property students")
    end.

(** [name => ({ id: name, name, students: data.students || [] })] *)
Definition course_of_name (data : gmap string value) (name : value) : value :=
  VObj {[ "id" := name; "name" := name;
          "students" := Js.or_else (Js.get data "students") (VArr []) ]}.

(** The older layout, a list of course names, is converted when the first
    element is a string. *)
Definition convert_names (data : gmap string value) : gmap string value :=
  match Js.get data "courses" with
  | VArr (VStr s :: rest) =>
      <["courses" := VArr (course_of_name data <$> (VStr s :: rest))]> data
  | _ => data
  end.

Definition loadMeta : M (gmap string value) :=
  try_catch
    (snap ← meta_get;
     match snap with
     | None => mret empty_meta
     | Some data =>
         let data := convert_names data in
         courses ← lift (courses_or_empty data);
         courses' ← map_m repair_course courses;
         mret (<["courses" := VArr courses']> data)
     end)
    (λ err, mret empty_meta).

Definition saveMeta (meta : gmap string value) : M result :=
  try_catch
    (meta_set_merge meta;; mret ok_plain)
    (λ err, mret (failed (error_to_string err))).

(** [Array.isArray(v) && v.length > 0] *)
Definition nonempty_array (v : value) : bool :=
  match v with
  | VArr (_ :: _) => true
  | _ => false
  end.

Definition u_umlaut : string := String "252"%char "".

Definition defaultMeta : gmap string value :=
  {[ "courses" :=
       VArr [VObj {[ "id" := VStr "RSA261"; "name" := VStr "RSA261";
                     "students" := VArr [VStr "Max Mustermann";
                                         VStr "Anna Beispiel"] ]}];
     "subjects" := VArr [VStr "Mathematik"; VStr "Deutsch"; VStr "Englisch"];
     "teachers" := VArr [VStr ("Frau M" +:+ u_umlaut +:+ "ller");
                         VStr "Herr Schmidt"] ]}.

Definition sample (date : string) (createdAt : value) : gmap string value :=
  {[ "course" := VStr "RSA261";
     "subject" := VStr "Mathematik";
     "teacher" := VStr ("Frau M" +:+ u_umlaut +:+ "ller");
     "date" := VStr date;
     "hour" := VStr "1";
     "content" := VStr ("Einf" +:+ u_umlaut +:+ "hrung (Beispiel)");
     "absences" := VArr [];
     "locked" := VBool false;
     "createdAt" := createdAt ]}.

Section Facade.

Variable order_by_date_hour :
  list (string * gmap string value) → list (string * gmap string value).

Definition loadEntries : M (list (gmap string value)) :=
  try_catch
    (docs ← query_by_date_hour order_by_date_hour; mret (entry_view <$> docs))
    (λ err, mret []).

Definition toggleLockEntry (id : string) : M bool :=
  try_catch
    (snap ← doc_get id;
     match snap with
     | None => mret false
     | Some current =>
         doc_update id {[ "locked" := VBool (negb (is_locked current)) ]};;
         mret true
     end)
    (λ err, mret false).

(** The first half of [ensureDefaults]: seed the metadata when there is
    no course, subject or teacher, else save the repaired courses. *)
Definition seed_or_repair_meta (meta : gmap string value) : M () :=
  if negb (nonempty_array (Js.get meta "courses"))
     && negb (nonempty_array (Js.get meta "subjects"))
     && negb (nonempty_array (Js.get meta "teachers"))
  then saveMeta defaultMeta;; mret ()
  else
    courses ← lift (courses_or_empty meta);
    courses' ← map_m repair_course courses;
    saveMeta (<["courses" := VArr courses']> meta);;
    mret ().

(** The second half: add the sample entry when [loadEntries] finds
    none. *)
Definition seed_sample : M () :=
  entries ← loadEntries;
  match entries with
  | [] =>
      '(date, createdAt) ← read_clock;
      collection_add (sample date createdAt);;
      mret ()
  | _ => mret ()
  end.

Definition ensureDefaults : M () :=
  try_catch
    (meta ← loadMeta;
     seed_or_repair_meta meta;;
     seed_sample)
    (λ err, mret ()).

End Facade.

(** *** Entries by natural key *)

(** What [where()] throws, before any request, on a value that is
    [undefined]. *)
Definition invalid_query : error :=
  {| ename := "FirebaseError"; emessage := "Unsupported field value: undefined" |}.

(** [where(k, '==', v)]: the document has the field and it equals [v]. *)
Definition field_is (k : string) (v : value) (d : gmap string value) : bool :=
  bool_decide (d !! k = Some v).

Definition same_key (entry : gmap string value)
    (p : string * gmap string value) : bool :=
  field_is "course" (Js.get entry "course") p.2
  && field_is "date" (Js.get entry "date") p.2
  && field_is "hour" (Js.get entry "hour") p.2.

Definition locked_message : string :=
  "Diese Stunde ist gesperrt und kann nicht " +:+ u_umlaut
    +:+ "berschrieben werden.".

Definition exists_message : string :=
  "F" +:+ u_umlaut +:+ "r diesen Kurs/Datum/Stunde existiert bereits ein Eintrag.".

Section Entries.

(** The order in which the backend returns the documents of a query without
    [orderBy]. *)
Variable order_by_id :
  list (string * gmap string value) → list (string * gmap string value).

(** [collection('entries').where('course', '==', entry.course)
      .where('date', '==', entry.date).where('hour', '==', entry.hour).get()] *)
Definition query_natural_key (entry : gmap string value)
  : M (list (string * gmap string value)) :=
  match natural_key entry with
  | (VUndef, _, _) | (_, VUndef, _) | (_, _, VUndef) => throw invalid_query
  | _ =>
      request (λ s,
        (Ret (order_by_id
                (filter (λ p, same_key entry p = true)
                        (map_to_list (entries s)))), s))
  end.

Definition addEntry (entry : gmap string value) : M result :=
  try_catch
    (docs ← query_natural_key entry;
     match docs with
     | (_, existing) :: _ =>
         if is_locked existing then mret (failed locked_message)
         else mret (failed exists_message)
     | [] =>
         '(_, createdAt) ← read_clock;
         let toSave :=
           if Js.truthy (Js.get entry "createdAt") then entry
           else <["createdAt" := createdAt]> entry in
         collection_add toSave;;
         mret ok_plain
     end)
    (λ err, mret (failed (error_to_string err))).

End Entries.

Definition deleteEntryById (id : string) : M bool :=
  try_catch
    (doc_delete id;; mret true)
    (λ err, mret false).

(** *** Courses *)

Definition addCourse (courseName : string) (studentsArray : value) : M result :=
  try_catch
    (meta ← loadMeta;
     let id := courseName in
     courses ← lift (courses_or_empty meta);
     found ← lift (find_course id courses);
     match found with
     | Some _ => mret (failed "Kurs existiert bereits")
     | None =>
         let course := VObj {[ "id" := VStr id; "name" := VStr courseName;
                               "students" := Js.or_else studentsArray (VArr []) ]} in
         saveMeta (<["courses" := VArr (courses ++ [course])]> meta);;
         mret ok_plain
     end)
    (λ err, mret (failed (error_to_string err))).



Definition getStudentsForCourse (courseId : string) : M value :=
  try_catch
    (meta ← loadMeta;
     courses ← lift (courses_or_empty meta);
     c ← lift (find_course courseId courses);
     match c with
     | Some c => mret (Js.or_else (Js.prop c "students") (VArr []))
     | None => mret (VArr [])
     end)
    (λ err, mret (VArr [])).

Definition deleteCourse (courseId : string) : M result :=
  try_catch
    (meta ← loadMeta;
     courses ← lift (courses_or_empty meta);
     kept ← lift (remove_course courseId courses);
     saveMeta (<["courses" := VArr kept]> meta);;
     mret ok_plain)
    (λ err, mret (failed (error_to_string err))).

End Seeding.

(** ** Worlds and entries used in the statements *)


(** A piece of facade code that never touches the [entries] collection,
    whatever the backend answers. *)
Definition keeps_entries {A} (m : M A) : Prop :=
  ∀ w, entries (store (m w).2) = entries (store w).

(** A piece of facade code that leaves the whole store as it is. *)
Definition read_only {A} (m : M A) : Prop :=
  ∀ w, store (m w).2 = store w.

(** [meta] comes from the document [d] by replacing fields by arrays. *)
Definition arrays_over (meta d : gmap string value) : Prop :=
  ∀ k, meta !! k = d !! k ∨ ∃ l, meta !! k = Some (VArr l).

(** A day of the timetable [days] that holds an array of six slots. *)
Definition six_slots (days : gmap string value) (d : string) : Prop :=
  ∃ l, days !! d = Some (VArr l) ∧ List.length l = 6%nat.

(** A course record with a timetable in order: truthy, and when it is an
    object every weekday holds six slots. *)
Definition timetable_in_order (c : value) : Prop :=
  ∀ o, c = VObj o →
    Js.truthy (Js.get o "timetable") = true
    ∧ ∀ days, o !! "timetable" = Some (VObj days) →
              ∀ day, day ∈ week → six_slots days day.

(** Only the supply of random numbers separates [w'] from [w]. *)
Definition same_backend (w w' : World) : Prop :=
  store w' = store w ∧ faults w' = faults w.

(** A course record the seeding variant's repair leaves as it is: an object
    with truthy [students] and [id]; or an array, of which the repair changes
    no element. *)
Definition repaired (c : value) : Prop :=
  match c with
  | VObj o =>
      Js.truthy (Js.get o "students") = true ∧ Js.truthy (Js.get o "id") = true
  | VArr _ => True
  | _ => False
  end.

(** A course record as the seeding variant writes it: an object with truthy
    [students] and [id]. *)
Definition course_object (c : value) : Prop :=
  match c with
  | VObj o =>
      Js.truthy (Js.get o "students") = true ∧ Js.truthy (Js.get o "id") = true
  | _ => False
  end.

(** The store the seeding variant's [ensureDefaults] leaves alone: the
    metadata document holds repaired courses and at least one course, subject
    or teacher, and the ordered query finds an entry. *)
Definition settled (s : Db) : Prop :=
  (∃ meta cs,
     meta_doc s = Some meta ∧ meta !! "courses" = Some (VArr cs)
     ∧ Forall repaired cs
     ∧ (Seeding.nonempty_array (Js.get meta "courses")
        || Seeding.nonempty_array (Js.get meta "subjects")
        || Seeding.nonempty_array (Js.get meta "teachers")) = true)
  ∧ ∃ p, p ∈ map_to_list (entries s) ∧ has_date_hour p = true.


(** The course record [addCourse] appends for the id, name and students. *)
Definition course_record (id name : string) (students : value) : value :=
  VObj {[ "id" := VStr id; "name" := VStr name;
          "students" := Js.or_else students (VArr []);
          "timetable" := empty_timetable ]}.

(** A world around the store [s] in which the backend answers every
    request. *)
Definition quiet_world (s : Db) : World :=
  {| store := s; faults := []; auto_ids := ["auto1"; "auto2"]; randoms := ["r4nd0m"];
     today := "2024-05-01"; server_time := VNum 1714550400 |}.

Definition empty_db : Db := {| meta_doc := None; entries := ∅ |}.

(** The entry of the specification's example scenario. *)
Definition intro_entry : gmap string value :=
  {[ "course" := VStr "RSA261"; "date" := VStr "2024-05-01";
     "hour" := VStr "1"; "content" := VStr "Intro" ]}.

Definition intro_db : Db :=
  {| meta_doc := None; entries := {[ "RSA261__2024-05-01__1" := intro_entry ]} |}.

(** A second entry, one day later, and a store holding both. *)
Definition next_day_entry : gmap string value :=
  {[ "course" := VStr "RSA261"; "date" := VStr "2024-05-02";
     "hour" := VStr "1"; "content" := VStr "Exercises" ]}.

Definition two_entries_db : Db :=
  {| meta_doc := None;
     entries := {[ "RSA261__2024-05-01__1" := intro_entry;
                   "RSA261__2024-05-02__1" := next_day_entry ]} |}.

(** The example entry, locked. *)
Definition locked_entry : gmap string value :=
  <["locked" := VBool true]> intro_entry.

Definition locked_db : Db :=
  {| meta_doc := None; entries := {[ "RSA261__2024-05-01__1" := locked_entry ]} |}.

(** A metadata document with one course whose Monday has two slots, and no
    subjects. *)
Definition short_monday_db : Db :=
  {| meta_doc :=
       Some {[ "courses" :=
                 VArr [VObj {[ "id" := VStr "RSA261"; "name" := VStr "RSA261";
                               "timetable" :=
                                 VObj {[ "mon" := VArr [VStr "Ma"; VStr "De"] ]} ]}];
               "teachers" := VArr [VStr "Herr Schmidt"] ]};
     entries := ∅ |}.

(** A backend whose ordered query is rejected each time (no composite index,
    say) and that answers everything else, over two calls of the seeding
    variant's [ensureDefaults]: read, save, query, add. *)
Definition no_index_world : World :=
  {| store := empty_db;
     faults := [None; None; Some {| ename := "FirebaseError";
                                    emessage := "The query requires an index" |};
                None;
                None; None; Some {| ename := "FirebaseError";
                                    emessage := "The query requires an index" |};
                None];
     auto_ids := ["auto1"; "auto2"]; randoms := [];
     today := "2024-05-01"; server_time := VNum 1714550400 |}.

(** Two courses with their students, and a metadata document and store
    around them. *)
Definition rsa261 : value :=
  VObj {[ "id" := VStr "RSA261"; "name" := VStr "RSA261";
          "students" := VArr [VStr "Anna"; VStr "Ben"] ]}.

Definition rsa262 : value :=
  VObj {[ "id" := VStr "RSA262"; "name" := VStr "RSA262";
          "students" := VArr [VStr "Dana"] ]}.

Definition catalog : gmap string value :=
  {[ "courses" := VArr [rsa261; rsa262];
     "subjects" := VArr [VStr "Ma"; VStr "De"];
     "teachers" := VArr [VStr "Herr Schmidt"] ]}.

Definition catalog_db : Db :=
  {| meta_doc := Some catalog;
     entries := {[ "RSA261__2024-05-01__1" := intro_entry ]} |}.

(** A metadata document whose course list holds [null]. *)
Definition null_course_db : Db :=
  {| meta_doc := Some {[ "courses" := VArr [VNull; rsa262] ]}; entries := ∅ |}.

Definition unavailable : error :=
  {| ename := "FirebaseError"; emessage := "unavailable" |}.

(** A backend over the catalogue that answers the first request and rejects
    the second, and one that rejects the first and answers from then on. *)
Definition save_rejected_world : World :=
  {| store := catalog_db; faults := [None; Some unavailable];
     auto_ids := ["auto1"]; randoms := [];
     today := "2024-05-01"; server_time := VNum 1714550400 |}.

Definition read_rejected_world : World :=
  {| store := catalog_db; faults := [Some unavailable];
     auto_ids := ["auto1"]; randoms := [];
     today := "2024-05-01"; server_time := VNum 1714550400 |}.

(** A metadata document in the older layout: the courses a list of names,
    one list of students for all. *)
Definition names_meta : gmap string value :=
  {[ "courses" := VArr [VStr "RSA261"; VStr "RSA262"];
     "students" := VArr [VStr "Anna"; VStr "Ben"] ]}.

Definition names_db : Db := {| meta_doc := Some names_meta; entries := ∅ |}.

(** [toUpperCase] on the letters a to z. *)
Definition upper_ascii (c : ascii) : ascii :=
  let n := nat_of_ascii c in
  if (97 <=? n)%nat && (n <=? 122)%nat then ascii_of_nat (n - 32) else c.

Fixpoint upper_case (s : string) : string :=
  match s with
  | EmptyString => EmptyString
  | String c rest => String (upper_ascii c) (upper_case rest)
  end.

(** * Properties *)

(** ** The backend under a reliable script *)

Lemma reliable_tick w : reliable w → reliable (tick w).
Proof.
  unfold reliable, tick; simpl. intros H.
  destruct (faults w); [done | by inversion H].
Qed.

Lemma reliable_set_store s w : reliable w → reliable (set_store s w).
Proof. done. Qed.

Lemma request_reliable {A} (act : Db → outcome A * Db) w :
  reliable w →
  request act w = (let '(r, s) := act (store w) in (r, set_store s (tick w))).
Proof.
  unfold reliable, request. intros H.
  destruct (faults w) as [|[e|] fs]; simpl; try done.
  by inversion H.
Qed.

Lemma doc_get_reliable id w :
  reliable w → doc_get id w = (Ret (entries (store w) !! id), tick w).
Proof. intros H. unfold doc_get. by rewrite request_reliable. Qed.

Lemma commit_reliable w : reliable w → commit w = (Ret (), tick w).
Proof. intros H. unfold commit. by rewrite request_reliable. Qed.

(** ** addEntry *)

Lemma addEntry_fresh w entry :
  reliable w → entries (store w) !! makeEntryId entry = None →
  addEntry entry w
  = (Ret (ok_id (makeEntryId entry)),
     tick (set_store (set_entries (<[makeEntryId entry := entry]> (entries (store w)))
                                  (store w)) (tick w))).
Proof.
  intros Hw Hnone.
  unfold addEntry, try_catch, run_transaction, tx_get, tx_set; simpl.
  unfold mbind, M_bind.
  rewrite doc_get_reliable by done. rewrite Hnone. simpl.
  rewrite commit_reliable; [done|].
  by apply reliable_set_store, reliable_tick.
Qed.

Lemma addEntry_taken w entry d :
  reliable w → entries (store w) !! makeEntryId entry = Some d →
  addEntry entry w = (Ret (failed "duplicate"), tick (tick w)).
Proof.
  intros Hw Hsome.
  unfold addEntry, try_catch, run_transaction, tx_get; simpl.
  unfold mbind, M_bind.
  rewrite doc_get_reliable by done. rewrite Hsome. simpl.
  rewrite commit_reliable; [done|]. by apply reliable_tick.
Qed.

Local Arguments makeEntryId : simpl never.

(** Whatever the script: [addEntry] returns, and either it reports success,
    the id was free and the entry is now stored under it, or it reports a
    failure and the store is as before. *)
Lemma addEntry_cases w entry :
  ∃ r, returned (addEntry entry) w = Ret r
    ∧ ((r = ok_id (makeEntryId entry)
        ∧ entries (store w) !! makeEntryId entry = None
        ∧ store (after (addEntry entry) w)
          = set_entries (<[makeEntryId entry := entry]> (entries (store w))) (store w))
       ∨ (ok r = false ∧ store (after (addEntry entry) w) = store w)).
Proof.
  destruct w as [s fs ids rs td st].
  unfold returned, after, addEntry, try_catch, run_transaction, tx_get, tx_set,
    doc_get, commit, request, mbind, M_bind; simpl.
  destruct fs as [|[e|] fs]; simpl; eauto.
  - destruct (entries s !! makeEntryId entry) eqn:E; simpl; eauto 8.
  - destruct (entries s !! makeEntryId entry) eqn:E; simpl;
      destruct fs as [|[e|] fs]; simpl; eauto 8.
Qed.



(** ** updateEntry *)

Lemma no_id_false id : no_id id = false ↔ id ≠ "".
Proof.
  unfold no_id; simpl. rewrite negb_involutive.
  destruct (String.eqb_spec id ""); naive_solver.
Qed.

(** A request is rejected, the store untouched, or it is performed. *)
Lemma request_cases {A} (act : Db → outcome A * Db) w :
  (∃ e, request act w = (Throw e, tick w))
  ∨ request act w = (let '(r, s) := act (store w) in (r, set_store s (tick w))).
Proof.
  unfold request. destruct (head (faults w)) as [[e|]|]; eauto.
Qed.

Ltac backend :=
  match goal with
  | |- context [request ?act ?w] =>
      destruct (request_cases act w) as [[? ->] | ->]
  end; cbn [store tick set_store set_entries entries meta_doc fst snd].

(** Whatever the script, [updateEntry] returns, and what it leaves is one
    of: the store as before, with a failure reported; the direct field
    update of the document under the unchanged id; the rename, the merged
    document under the new id and none under the old one. *)
Lemma updateEntry_cases w oldId data :
  ∃ r, returned (updateEntry oldId data) w = Ret r
    ∧ ((ok r = false ∧ store (after (updateEntry oldId data) w) = store w)
       ∨ (∃ id cur, oldId = Some id ∧ id ≠ ""
            ∧ entries (store w) !! id = Some cur ∧ is_locked cur = false
            ∧ ((makeEntryId data = id ∧ r = ok_plain
                ∧ store (after (updateEntry oldId data) w)
                  = set_entries (<[id := data ∪ cur]> (entries (store w))) (store w))
               ∨ (makeEntryId data ≠ id
                  ∧ entries (store w) !! makeEntryId data = None
                  ∧ r = ok_id (makeEntryId data)
                  ∧ store (after (updateEntry oldId data) w)
                    = set_entries (delete id (<[makeEntryId data := data ∪ cur]>
                                                (entries (store w)))) (store w))))).
Proof.
  destruct oldId as [id|]; [|by eexists; split; [|left]].
  unfold returned, after, updateEntry, try_catch.
  destruct (no_id id) eqn:Hid; [by eexists; split; [|left]|].
  apply no_id_false in Hid.
  unfold run_transaction, tx_get, tx_set,
    tx_delete, doc_get, doc_update, commit, mbind, M_bind.
  backend; [by eexists; split; [|left]|].
  destruct (entries (store w) !! id) as [cur|] eqn:Hcur;
    [|by eexists; split; [|left]].
  destruct (is_locked cur) eqn:Hlock; [by eexists; split; [|left]|].
  destruct (String.eqb_spec (makeEntryId data) id) as [Heq|Hneq].
  - backend; [by eexists; split; [|left]|].
    rewrite Hcur. eexists; split; [done|]. right. exists id, cur. eauto 10.
  - backend; [by eexists; split; [|left]|].
    destruct (entries (store w) !! makeEntryId data) as [tgt|] eqn:Htgt.
    { cbn. backend; by eexists; split; [|left]. }
    backend; [by eexists; split; [|left]|].
    rewrite Hcur, Hlock. cbn.
    backend; [by eexists; split; [|left]|].
    eexists; split; [done|]. right. exists id, cur.
    do 4 (split; [done|]). right. done.
Qed.

Ltac solve_reliable :=
  repeat first [ assumption | apply reliable_tick | apply reliable_set_store ].

Ltac backend_ok :=
  rewrite request_reliable by solve_reliable;
  cbn [store tick set_store set_entries entries meta_doc fst snd].



Lemma updateEntry_locked w id cur data :
  reliable w → id ≠ "" → entries (store w) !! id = Some cur →
  is_locked cur = true →
  returned (updateEntry (Some id) data) w = Ret (failed "locked").
Proof.
  intros Hw Hid Hcur Hlock. apply no_id_false in Hid.
  unfold returned, updateEntry, try_catch, doc_get, mbind, M_bind.
  rewrite Hid. backend_ok. by rewrite Hcur, Hlock.
Qed.


Lemma updateEntry_duplicate_target w id cur data tgt :
  reliable w → id ≠ "" → entries (store w) !! id = Some cur →
  is_locked cur = false → makeEntryId data ≠ id →
  entries (store w) !! makeEntryId data = Some tgt →
  returned (updateEntry (Some id) data) w = Ret (failed "duplicate_target").
Proof.
  intros Hw Hid Hcur Hlock Hneq Htgt. apply no_id_false in Hid.
  unfold returned, updateEntry, try_catch, run_transaction, tx_get, doc_get,
    commit, mbind, M_bind.
  rewrite Hid. backend_ok. rewrite Hcur, Hlock.
  destruct (String.eqb_spec (makeEntryId data) id) as [|_]; [done|].
  backend_ok. rewrite Htgt. cbn. by backend_ok.
Qed.


(** C2.  A call [updateEntry(id, data)] whose new id differs from [id]
    (a rename).  When [id] holds an unlocked entry and another entry already
    sits at the new id, the call fails with reason ['duplicate_target'] (the
    backend answering), and whatever the backend answers the store is left
    as it was: the source and the entry at the target id are unchanged.  And
    for every rename, whatever the backend answers, either the store is as
    before, or both steps took place, the merged document created under the
    new id and the old document deleted; never one without the other. *)
Theorem updateEntry_rename_all_or_nothing
    (w : World) (id : string) (data : gmap string value) :
  makeEntryId data ≠ id →
  (∀ src tgt,
     id ≠ "" → entries (store w) !! id = Some src → is_locked src = false →
     entries (store w) !! makeEntryId data = Some tgt →
     (reliable w →
      returned (updateEntry (Some id) data) w = Ret (failed "duplicate_target"))
     ∧ store (after (updateEntry (Some id) data) w) = store w
     ∧ entries (store (after (updateEntry (Some id) data) w)) !! id = Some src
     ∧ entries (store (after (updateEntry (Some id) data) w)) !! makeEntryId data
       = Some tgt)
  ∧ (store (after (updateEntry (Some id) data) w) = store w
     ∨ ∃ cur,
         entries (store w) !! id = Some cur
         ∧ returned (updateEntry (Some id) data) w = Ret (ok_id (makeEntryId data))
         ∧ store (after (updateEntry (Some id) data) w)
           = set_entries (delete id (<[makeEntryId data := data ∪ cur]>
                                       (entries (store w)))) (store w)
         ∧ entries (store (after (updateEntry (Some id) data) w)) !! makeEntryId data
           = Some (data ∪ cur)
         ∧ entries (store (after (updateEntry (Some id) data) w)) !! id = None).
Proof.
  intros Hneq.
  destruct (updateEntry_cases w (Some id) data)
    as (r & Hr & [[Hko Hst] | (id' & cur & [= <-] & Hid & Hcur & Hlock
                  & [(Hsame & _) | (_ & Hfree & -> & Hst)])]); [| done |].
  - split; [|by left]. intros src tgt Hid Hsrc Hlock Htgt.
    rewrite Hst. split_and!; [|done..].
    intros Hw. by eapply updateEntry_duplicate_target.
  - split.
    + intros src tgt _ _ _ Htgt. congruence.
    + right. exists cur. rewrite Hst. cbn [entries set_entries].
      split_and!; [done..| |].
      * by rewrite lookup_delete_ne, lookup_insert_eq.
      * by rewrite lookup_delete_eq.
Qed.


(** ** toggleLockEntry *)

(** The document after [update({ locked: !current.locked })]. *)
Lemma toggled_doc (cur : gmap string value) :
  {[ "locked" := VBool (negb (is_locked cur)) ]} ∪ cur
  = <["locked" := VBool (negb (is_locked cur))]> cur.
Proof. by rewrite insert_union_singleton_l. Qed.

Lemma is_locked_insert (cur : gmap string value) b :
  is_locked (<["locked" := VBool b]> cur) = b.
Proof. unfold is_locked, Js.get. by rewrite lookup_insert_eq. Qed.

Lemma toggleLockEntry_reliable w id cur :
  reliable w → entries (store w) !! id = Some cur →
  toggleLockEntry id w
  = (Ret ok_plain,
     set_store (set_entries (<[id := <["locked" := VBool (negb (is_locked cur))]> cur]>
                               (entries (store w))) (store w)) (tick (tick w))).
Proof.
  intros Hw Hcur.
  unfold toggleLockEntry, try_catch, doc_get, doc_update, mbind, M_bind.
  backend_ok. rewrite Hcur. backend_ok. by rewrite Hcur, toggled_doc.
Qed.

Lemma seeding_toggleLockEntry_reliable w id cur :
  reliable w → entries (store w) !! id = Some cur →
  Seeding.toggleLockEntry id w
  = (Ret true,
     set_store (set_entries (<[id := <["locked" := VBool (negb (is_locked cur))]> cur]>
                               (entries (store w))) (store w)) (tick (tick w))).
Proof.
  intros Hw Hcur.
  unfold Seeding.toggleLockEntry, try_catch, doc_get, doc_update, mbind, M_bind.
  backend_ok. rewrite Hcur. backend_ok. by rewrite Hcur, toggled_doc.
Qed.


Lemma set_entries_twice es es' s :
  set_entries es (set_entries es' s) = set_entries es s.
Proof. done. Qed.

(** Two toggles in a row, as a function of the store. *)
Lemma toggle_twice_doc (es : gmap string (gmap string value)) id cur :
  <[id := <["locked" := VBool (negb (negb (is_locked cur)))]>
            (<["locked" := VBool (negb (is_locked cur))]> cur)]>
    (<[id := <["locked" := VBool (negb (is_locked cur))]> cur]> es)
  = <[id := <["locked" := VBool (is_locked cur)]> cur]> es.
Proof. by rewrite insert_insert_eq, insert_insert_eq, negb_involutive. Qed.

(** C6.  [toggleLockEntry] on an existing entry, the backend answering.  One
    application succeeds and replaces the [locked] flag by the negation of
    the lock state, every other field and every other entry as before.  Two
    applications in a row return the entry to its original lock state, with
    the flag stored as that boolean; when the flag was stored as a boolean
    to begin with, the whole store is back to what it was.  The same holds
    of the seeding variant's [toggleLockEntry], which returns [true]. *)
Theorem toggleLockEntry_involutive (w : World) (id : string)
    (cur : gmap string value) :
  reliable w → entries (store w) !! id = Some cur →
  let once := after (toggleLockEntry id) w in
  let twice := after (toggleLockEntry id) once in
  let once' := after (Seeding.toggleLockEntry id) w in
  let twice' := after (Seeding.toggleLockEntry id) once' in
  (returned (toggleLockEntry id) w = Ret ok_plain
   ∧ store once
     = set_entries (<[id := <["locked" := VBool (negb (is_locked cur))]> cur]>
                      (entries (store w))) (store w)
   ∧ (∃ d1, entries (store once) !! id = Some d1
            ∧ is_locked d1 = negb (is_locked cur)))
  ∧ (returned (toggleLockEntry id) once = Ret ok_plain
     ∧ store twice
       = set_entries (<[id := <["locked" := VBool (is_locked cur)]> cur]>
                        (entries (store w))) (store w)
     ∧ (∃ d2, entries (store twice) !! id = Some d2
              ∧ is_locked d2 = is_locked cur)
     ∧ (∀ b, cur !! "locked" = Some (VBool b) → store twice = store w))
  ∧ (returned (Seeding.toggleLockEntry id) w = Ret true
     ∧ store once' = store once
     ∧ returned (Seeding.toggleLockEntry id) once' = Ret true
     ∧ store twice' = store twice).
Proof.
  intros Hw Hcur once twice once' twice'.
  assert (store once
     = set_entries (<[id := <["locked" := VBool (negb (is_locked cur))]> cur]>
                      (entries (store w))) (store w)) as Honce.
  { subst once. unfold after. by rewrite (toggleLockEntry_reliable w id cur). }
  assert (reliable once) as Hw1.
  { subst once. unfold after. rewrite (toggleLockEntry_reliable w id cur) by done.
    simpl. solve_reliable. }
  assert (entries (store once) !! id
          = Some (<["locked" := VBool (negb (is_locked cur))]> cur)) as Hcur1.
  { rewrite Honce. simpl. apply lookup_insert_eq. }
  assert (store twice
       = set_entries (<[id := <["locked" := VBool (is_locked cur)]> cur]>
                        (entries (store w))) (store w)) as Htwice.
  { subst twice. unfold after.
    rewrite (toggleLockEntry_reliable once id _ Hw1 Hcur1). simpl.
    rewrite Honce. simpl. rewrite is_locked_insert.
    by rewrite set_entries_twice, toggle_twice_doc. }
  assert (store once' = store once) as Honce'.
  { subst once'. unfold after.
    by rewrite Honce, (seeding_toggleLockEntry_reliable w id cur). }
  assert (reliable once') as Hw1'.
  { subst once'. unfold after.
    rewrite (seeding_toggleLockEntry_reliable w id cur) by done.
    simpl. solve_reliable. }
  split_and!.
  - unfold returned. by rewrite (toggleLockEntry_reliable w id cur).
  - done.
  - eexists. split; [done|]. apply is_locked_insert.
  - unfold returned. by rewrite (toggleLockEntry_reliable once id _ Hw1 Hcur1).
  - done.
  - rewrite Htwice. simpl. eexists. split; [apply lookup_insert_eq|].
    apply is_locked_insert.
  - intros b Hb. rewrite Htwice.
    assert (is_locked cur = b) as -> by (unfold is_locked, Js.get; by rewrite Hb).
    rewrite (insert_id cur) by done. rewrite insert_id by done.
    by destruct (store w).
  - unfold returned. by rewrite (seeding_toggleLockEntry_reliable w id cur).
  - done.
  - rewrite <- Honce' in Hcur1. unfold returned.
    by rewrite (seeding_toggleLockEntry_reliable once' id _ Hw1' Hcur1).
  - rewrite <- Honce' in Hcur1. subst twice'. unfold after.
    rewrite (seeding_toggleLockEntry_reliable once' id _ Hw1' Hcur1). simpl.
    rewrite Htwice, Honce', Honce. simpl. rewrite is_locked_insert.
    by rewrite set_entries_twice, toggle_twice_doc.
Qed.

(** ** A missing [locked] flag *)



(** ** The derived id *)

(** The id of the specification's example scenario. *)
Example makeEntryId_spec_scenario :
  makeEntryId {[ "course" := VStr "RSA261"; "date" := VStr "2024-05-01";
                 "hour" := VStr "1"; "content" := VStr "Intro" ]}
  = "RSA261__2024-05-01__1".
Proof. vm_compute. reflexivity. Qed.

(** White space is trimmed and collapsed to one underscore, other
    characters outside the id class are dropped, falsy values give the empty
    string. *)
Example safe_examples :
  safe (VStr "  A  B ") = "A_B" ∧ safe (VStr "A_B") = "A_B"
  ∧ safe (VNum 1) = "1" ∧ safe (VNum 0) = "" ∧ safe VNull = ""
  ∧ safe (VStr "Kl. 9/a") = "Kl_9a".
Proof. vm_compute. repeat split. Qed.

(** C9.  [makeEntryId] is not injective on [(course, date, hour)]: for any
    date and hour, the course names ['A B'] and ['A_B'] give two distinct
    natural keys with one and the same document id.  So, the backend
    answering and the id free, [addEntry] succeeds for the first and then
    returns [{ok: false, reason: 'duplicate'}] for the second. *)
Theorem makeEntryId_not_injective (w : World) (date hour : value) :
  let e1 : gmap string value :=
    {[ "course" := VStr "A B"; "date" := date; "hour" := hour ]} in
  let e2 : gmap string value :=
    {[ "course" := VStr "A_B"; "date" := date; "hour" := hour ]} in
  natural_key e1 ≠ natural_key e2
  ∧ makeEntryId e1 = makeEntryId e2
  ∧ (reliable w → entries (store w) !! makeEntryId e1 = None →
     returned (addEntry e1) w = Ret (ok_id (makeEntryId e1))
     ∧ returned (addEntry e2) (after (addEntry e1) w) = Ret (failed "duplicate")).
Proof.
  intros e1 e2.
  assert (Js.get e1 "course" = VStr "A B" ∧ Js.get e2 "course" = VStr "A_B"
          ∧ Js.get e1 "date" = Js.get e2 "date"
          ∧ Js.get e1 "hour" = Js.get e2 "hour") as (Hc1 & Hc2 & Hd & Hh).
  { subst e1 e2. unfold Js.get. by simplify_map_eq. }
  assert (makeEntryId e1 = makeEntryId e2) as Hid.
  { unfold makeEntryId. rewrite Hc1, Hc2, Hd, Hh. done. }
  split_and!.
  - unfold natural_key. rewrite Hc1, Hc2. intros [=].
  - done.
  - intros Hw Hfree. unfold returned, after.
    rewrite (addEntry_fresh w e1) by done. cbn [fst snd]. split; [done|].
    erewrite addEntry_taken; [done | solve_reliable |].
    rewrite <- Hid. cbn. apply lookup_insert_eq.
Qed.

(** C4 fails on the code.  [updateEntry] derives the new id from
    [newFields] alone: fields that say nothing of course, date and hour
    leave the natural key of the stored entry as it is, and yet the call
    takes the rename path to the id ['____'].  Here on the entry of the
    example scenario with [{content: 'x'}]: the call reports success under
    the id ['____'], the document under the old id is gone and the merged
    document sits under ['____']. *)
Theorem updateEntry_partial_fields_renames :
  let id := "RSA261__2024-05-01__1" in
  let data : gmap string value := {[ "content" := VStr "x" ]} in
  let w := quiet_world intro_db in
  entries (store w) !! id = Some intro_entry
  ∧ is_locked intro_entry = false
  ∧ natural_key (data ∪ intro_entry) = natural_key intro_entry
  ∧ returned (updateEntry (Some id) data) w = Ret (ok_id "____")
  ∧ entries (store (after (updateEntry (Some id) data) w)) !! id = None
  ∧ entries (store (after (updateEntry (Some id) data) w)) !! "____"
    = Some (data ∪ intro_entry).
Proof. split_and!; vm_compute; reflexivity. Qed.

(** ** Code that leaves the entries, or the whole store, alone *)

Section Keeps.
Context {A B : Type}.

Lemma keeps_mret (a : A) : keeps_entries (mret a : M A).
Proof. done. Qed.

Lemma keeps_throw e : keeps_entries (throw e : M A).
Proof. done. Qed.

Lemma keeps_lift (o : outcome A) : keeps_entries (lift o).
Proof. done. Qed.

Lemma keeps_bind (m : M A) (k : A → M B) :
  keeps_entries m → (∀ a, keeps_entries (k a)) → keeps_entries (m ≫= k).
Proof.
  intros Hm Hk w. unfold mbind, M_bind. specialize (Hm w).
  destruct (m w) as [[a|e] w']; cbn in *; [|done].
  by rewrite Hk.
Qed.

Lemma keeps_try_catch (m : M A) (h : error → M A) :
  keeps_entries m → (∀ e, keeps_entries (h e)) → keeps_entries (try_catch m h).
Proof.
  intros Hm Hh w. unfold try_catch. specialize (Hm w).
  destruct (m w) as [[a|e] w']; cbn in *; [done|].
  by rewrite Hh.
Qed.

Lemma keeps_request (act : Db → outcome A * Db) :
  (∀ s, entries (act s).2 = entries s) → keeps_entries (request act).
Proof.
  intros Hact w. unfold request.
  destruct (head (faults w)) as [[e|]|]; try done;
    specialize (Hact (store w)); by destruct (act (store w)).
Qed.

Lemma read_only_mret (a : A) : read_only (mret a : M A).
Proof. done. Qed.

Lemma read_only_lift (o : outcome A) : read_only (lift o).
Proof. done. Qed.

Lemma read_only_bind (m : M A) (k : A → M B) :
  read_only m → (∀ a, read_only (k a)) → read_only (m ≫= k).
Proof.
  intros Hm Hk w. unfold mbind, M_bind. specialize (Hm w).
  destruct (m w) as [[a|e] w']; cbn in *; [|done].
  by rewrite Hk.
Qed.

Lemma read_only_try_catch (m : M A) (h : error → M A) :
  read_only m → (∀ e, read_only (h e)) → read_only (try_catch m h).
Proof.
  intros Hm Hh w. unfold try_catch. specialize (Hm w).
  destruct (m w) as [[a|e] w']; cbn in *; [done|].
  by rewrite Hh.
Qed.

Lemma read_only_request (act : Db → outcome A * Db) :
  (∀ s, (act s).2 = s) → read_only (request act).
Proof.
  intros Hact w. unfold request.
  destruct (head (faults w)) as [[e|]|]; try done;
    specialize (Hact (store w)); by destruct (act (store w)).
Qed.

Lemma read_only_keeps (m : M A) : read_only m → keeps_entries m.
Proof. intros H w. by rewrite H. Qed.

(** Dropping the returned value does not change the world left. *)
Lemma after_discard (m : M A) (b : B) w : after (m ≫= λ _, mret b) w = after m w.
Proof.
  unfold after, mbind, M_bind. by destruct (m w) as [[a|e] w'].
Qed.

End Keeps.

Ltac keeps :=
  repeat first
    [ apply keeps_mret | apply keeps_throw | apply keeps_lift
    | apply keeps_bind; [|intros]
    | apply keeps_try_catch; [|intros]
    | apply keeps_request; intros; done
    | match goal with
      | |- keeps_entries (match ?x with _ => _ end) => destruct x
      end ].

Ltac read_only :=
  repeat first
    [ apply read_only_mret | apply read_only_lift
    | apply read_only_bind; [|intros]
    | apply read_only_try_catch; [|intros]
    | apply read_only_request; intros; done
    | match goal with
      | |- read_only (match ?x with _ => _ end) => destruct x
      end ].

Lemma loadMeta_read_only : read_only loadMeta.
Proof. unfold loadMeta, meta_get. read_only. Qed.

Lemma saveMeta_keeps meta : keeps_entries (saveMeta meta).
Proof. unfold saveMeta, meta_set_merge. keeps. Qed.

Lemma getStudentsForCourse_read_only courseId :
  read_only (getStudentsForCourse courseId).
Proof.
  unfold getStudentsForCourse. read_only.
Qed.

Lemma deleteCourse_keeps id : keeps_entries (deleteCourse id).
Proof.
  unfold deleteCourse. keeps.
Qed.

Lemma ensureDefaults_keeps : keeps_entries ensureDefaults.
Proof.
  unfold ensureDefaults. keeps.
Qed.

(** ** Loading *)

Section Properties.

Variable order_by_date_hour :
  list (string * gmap string value) → list (string * gmap string value).
Variable toUpperCase : string → string.

Lemma loadEntries_read_only : read_only (loadEntries order_by_date_hour).
Proof. unfold loadEntries, query_by_date_hour, query_all. read_only. Qed.

Lemma addCourse_keeps name students :
  keeps_entries (addCourse toUpperCase name students).
Proof. unfold addCourse. keeps. Qed.

(** C8.  For every backend outcome [loadMeta] and [loadEntries] return and
    never throw, and leave the store as it is.  [loadMeta] returns the
    empty default [{courses: [], subjects: [], teachers: []}] when the read
    is rejected or the document is absent, and the metadata document
    otherwise.  [loadEntries] returns the result of the ordered query, or,
    that query rejected, the entries of the plain scan, or, both rejected,
    the empty sequence. *)
Theorem loads_never_raise (w : World) :
  (returned loadMeta w
   = Ret (match head (faults w) with
          | Some (Some _) => empty_meta
          | _ => default empty_meta (meta_doc (store w))
          end)
   ∧ store (after loadMeta w) = store w)
  ∧ (returned (loadEntries order_by_date_hour) w
     = Ret (match head (faults w) with
            | Some (Some _) =>
                match head (tail (faults w)) with
                | Some (Some _) => []
                | _ => entry_view <$> map_to_list (entries (store w))
                end
            | _ =>
                entry_view <$>
                  order_by_date_hour
                    (filter (λ p, has_date_hour p = true)
                            (map_to_list (entries (store w))))
            end)
     ∧ store (after (loadEntries order_by_date_hour) w) = store w).
Proof.
  split; split.
  - unfold returned, loadMeta, try_catch, meta_get, request, mbind, M_bind.
    destruct (head (faults w)) as [[e|]|]; try done;
      by destruct (meta_doc (store w)).
  - apply loadMeta_read_only.
  - unfold returned, loadEntries, try_catch, query_by_date_hour, query_all,
      request, mbind, M_bind.
    destruct (head (faults w)) as [[e|]|]; try done.
    cbn [faults tick]. by destruct (head (tail (faults w))) as [[e'|]|].
  - apply loadEntries_read_only.
Qed.

(** ** Locked entries *)

Lemma plain_updateEntry_cases w id data :
  store (after (Plain.updateEntry (Some id) data) w) = store w
  ∨ ∃ cur, entries (store w) !! id = Some cur ∧ is_locked cur = false
           ∧ store (after (Plain.updateEntry (Some id) data) w)
             = set_entries (<[id := data ∪ cur]> (entries (store w))) (store w).
Proof.
  unfold after, Plain.updateEntry, try_catch.
  destruct (no_id id); [by left|].
  unfold doc_get, doc_update, mbind, M_bind.
  backend; [by left|].
  destruct (entries (store w) !! id) as [cur|] eqn:Hcur; [|by left].
  destruct (is_locked cur) eqn:Hlock; [by left|].
  backend; [by left|]. rewrite Hcur. right. by exists cur.
Qed.

Lemma plain_updateEntry_locked w id cur data :
  reliable w → id ≠ "" → entries (store w) !! id = Some cur →
  is_locked cur = true →
  returned (Plain.updateEntry (Some id) data) w = Ret (failed "locked").
Proof.
  intros Hw Hid Hcur Hlock. apply no_id_false in Hid.
  unfold returned, Plain.updateEntry, try_catch, doc_get, mbind, M_bind.
  rewrite Hid. backend_ok. by rewrite Hcur, Hlock.
Qed.

Lemma deleteEntryById_reliable w id :
  reliable w →
  deleteEntryById id w
  = (Ret ok_plain,
     set_store (set_entries (delete id (entries (store w))) (store w)) (tick w)).
Proof.
  intros Hw. unfold deleteEntryById, try_catch, doc_delete, mbind, M_bind.
  by backend_ok.
Qed.

(** What a call other than [toggleLockEntry] and [deleteEntryById] leaves of
    a locked entry: the entry. *)
Lemma run_keeps_locked w c id cur :
  entries (store w) !! id = Some cur → is_locked cur = true →
  (∀ i, c ≠ ToggleLockEntry i) → (∀ i, c ≠ DeleteEntryById i) →
  entries (store (after (run order_by_date_hour toUpperCase c) w)) !! id
  = Some cur.
Proof.
  intros Hcur Hlock Hnt Hnd.
  destruct c as [|meta| |entry|oldId data|i|i|courseId|name students|i|];
    unfold run; rewrite after_discard; unfold after.
  - by rewrite loadMeta_read_only.
  - by rewrite saveMeta_keeps.
  - by rewrite loadEntries_read_only.
  - destruct (addEntry_cases w entry)
      as (r & _ & [(_ & Hfree & Hst) | [_ Hst]]);
      unfold after in Hst; rewrite Hst; [|done].
    cbn. rewrite lookup_insert_ne; [done | congruence].
  - destruct (updateEntry_cases w oldId data)
      as (r & _ & [[_ Hst] | (id' & cur' & -> & _ & Hcur' & Hlock'
                   & [(_ & _ & Hst) | (_ & Hfree & _ & Hst)])]);
      unfold after in Hst; rewrite Hst; [done | |].
    + cbn. rewrite lookup_insert_ne; [done | congruence].
    + cbn. rewrite lookup_delete_ne, lookup_insert_ne; [done | congruence..].
  - by destruct (Hnd i).
  - by destruct (Hnt i).
  - by rewrite getStudentsForCourse_read_only.
  - by rewrite addCourse_keeps.
  - by rewrite deleteCourse_keeps.
  - by rewrite ensureDefaults_keeps.
Qed.

(** C3.  An entry stored with a true (truthy) [locked] flag.
    [updateEntry] on its id, which as a document id is not empty, fails with
    reason ['locked'] (the backend answering; in the opaque-id variant too)
    and the store, so the entry's
    fields and its id, is as before whatever the backend answers.  Of all
    the calls of the API only [toggleLockEntry] and [deleteEntryById]
    change the entry: after any other call it is still stored unchanged
    under its id, while these two, the backend answering, unlock it and
    remove it. *)
Theorem locked_entry_is_frozen (w : World) (id : string)
    (cur : gmap string value) :
  entries (store w) !! id = Some cur → is_locked cur = true →
  (∀ data,
     (reliable w → id ≠ "" →
      returned (updateEntry (Some id) data) w = Ret (failed "locked")
      ∧ returned (Plain.updateEntry (Some id) data) w = Ret (failed "locked"))
     ∧ store (after (updateEntry (Some id) data) w) = store w
     ∧ store (after (Plain.updateEntry (Some id) data) w) = store w)
  ∧ (∀ c, (∀ i, c ≠ ToggleLockEntry i) → (∀ i, c ≠ DeleteEntryById i) →
     entries (store (after (run order_by_date_hour toUpperCase c) w)) !! id
     = Some cur)
  ∧ (reliable w →
     entries (store (after (run order_by_date_hour toUpperCase
                                (ToggleLockEntry id)) w)) !! id
     = Some (<["locked" := VBool false]> cur)
     ∧ entries (store (after (run order_by_date_hour toUpperCase
                                  (DeleteEntryById id)) w)) !! id
       = None).
Proof.
  intros Hcur Hlock. split_and!.
  - intros data. split_and!.
    + intros Hw Hid. split.
      * by eapply updateEntry_locked.
      * by eapply plain_updateEntry_locked.
    + destruct (updateEntry_cases w (Some id) data)
        as (r & _ & [[_ Hst] | (id' & cur' & [= <-] & _ & Hcur' & Hlock' & _)]);
        [done | congruence].
    + destruct (plain_updateEntry_cases w id data)
        as [Hst | (cur' & Hcur' & Hlock' & _)]; [done | congruence].
  - intros c. by apply run_keeps_locked.
  - intros Hw. unfold run. rewrite !after_discard. unfold after.
    rewrite (toggleLockEntry_reliable w id cur Hw Hcur).
    rewrite (deleteEntryById_reliable w id Hw). cbn.
    rewrite lookup_insert_eq, lookup_delete_eq, Hlock. done.
Qed.

End Properties.

(** ** Saving what was loaded *)

Lemma depth_lookup (o : gmap string value) k v :
  o !! k = Some v → (depth v < depth (VObj o))%nat.
Proof.
  intros Hkv. cbn [depth]. apply Nat.lt_succ_r. revert k v Hkv.
  apply (map_fold_weak_ind (λ r (m : gmap string value),
           ∀ k v, m !! k = Some v → (depth v ≤ r)%nat)).
  - intros k v. by rewrite lookup_empty.
  - intros i x m r Hi IH k v. rewrite lookup_insert.
    case_decide; [intros [= ->]; lia|]. intros Hk%IH. lia.
Qed.

(** Merging a value into itself changes nothing. *)
Lemma merge_value_diag v : merge_value v v = v.
Proof.
  remember (depth v) as n eqn:Hn. revert v Hn.
  induction (lt_wf n) as [n _ IH]. intros [| | | | | |o] Hn; try done.
  cbn [merge_value]. destruct (map_to_list o); [done|]. f_equal.
  apply map_eq. intros k. rewrite lookup_merge.
  destruct (o !! k) as [x|] eqn:Hx; [|done]. cbn. f_equal.
  eapply IH; [|done]. subst n. by eapply depth_lookup.
Qed.

Lemma arrays_over_refl d : arrays_over d d.
Proof. intros k. by left. Qed.

Lemma arrays_over_insert meta d k l :
  arrays_over meta d → arrays_over (<[k := VArr l]> meta) d.
Proof.
  intros H k'. destruct (decide (k = k')) as [->|Hne].
  - right. exists l. apply lookup_insert_eq.
  - rewrite lookup_insert_ne by done. apply H.
Qed.

(** [set(meta, {merge: true})] of such a [meta] stores exactly [meta]. *)
Lemma merge_fields_arrays_over meta d :
  arrays_over meta d → merge_fields meta d = meta.
Proof.
  intros H. apply map_eq. intros k. unfold merge_fields. rewrite lookup_merge.
  destruct (H k) as [Hk | [l Hk]]; rewrite Hk.
  - destruct (d !! k) as [x|]; [|done]. cbn. by rewrite merge_value_diag.
  - by destruct (d !! k).
Qed.

(** ** ensureDefaults: the repair reaches a fixed point *)

Lemma ensure_array_spec k (m : gmap string value) c :
  let r := ensure_array k (m, c) in
  Js.truthy (Js.get r.1 k) = true
  ∧ arrays_over r.1 m
  ∧ (∀ k', k' ≠ k → r.1 !! k' = m !! k')
  ∧ (r.2 = false → r.1 = m ∧ c = false).
Proof.
  unfold ensure_array. cbn [fst snd].
  destruct (Js.truthy (Js.get m k)) eqn:Ht; cbn [fst snd].
  - split_and!; [done | apply arrays_over_refl | done | done].
  - split_and!; [| by apply arrays_over_insert, arrays_over_refl | | done].
    + unfold Js.get. by rewrite lookup_insert_eq.
    + intros k' Hk'. by rewrite lookup_insert_ne.
Qed.

Lemma ensure_array_truthy k (m : gmap string value) c :
  Js.truthy (Js.get m k) = true → ensure_array k (m, c) = (m, c).
Proof. unfold ensure_array. cbn [fst]. by intros ->. Qed.

Lemma pad6_length l : List.length (pad6 (take 6 l)) = 6%nat.
Proof.
  unfold pad6. rewrite length_app, length_replicate, length_take. lia.
Qed.

Lemma fix_day_noop days d : six_slots days d → fix_day days d = (days, false).
Proof.
  intros (l & Hl & Hlen). unfold fix_day, Js.get. rewrite Hl. cbn.
  by rewrite Hlen.
Qed.

Lemma fix_day_six days d : six_slots (fix_day days d).1 d.
Proof.
  unfold fix_day, Js.get.
  destruct (days !! d) as [[| | | | |l|]|] eqn:Hd; cbn;
    try (eexists; split; [apply lookup_insert_eq | done]).
  destruct (Nat.eqb_spec (List.length l) 6); cbn.
  - by exists l.
  - eexists; split; [apply lookup_insert_eq | apply pad6_length].
Qed.

Lemma fix_day_other days d d' :
  six_slots days d' → six_slots (fix_day days d).1 d'.
Proof.
  intros H. destruct (decide (d = d')) as [->|Hne]; [apply fix_day_six|].
  destruct H as (l' & Hl' & Hlen').
  assert (∀ v, six_slots (<[d := v]> days) d') as Hins.
  { intros v. exists l'. by rewrite lookup_insert_ne. }
  unfold fix_day. destruct (Js.get days d) as [| | | | |l|]; cbn; try apply Hins.
  destruct (List.length l =? 6)%nat; cbn; [by exists l' | apply Hins].
Qed.

Lemma fix_day_unchanged days d :
  (fix_day days d).2 = false → (fix_day days d).1 = days.
Proof.
  unfold fix_day. destruct (Js.get days d) as [| | | | |l|]; cbn; try done.
  by destruct (List.length l =? 6)%nat.
Qed.

Lemma fix_days_spec ds days c :
  let r := fix_days ds (days, c) in
  (∀ d, d ∈ ds → six_slots r.1 d)
  ∧ (∀ d, six_slots days d → six_slots r.1 d)
  ∧ (r.2 = false → r.1 = days ∧ c = false).
Proof.
  revert days c. induction ds as [|d ds IH]; intros days c; cbn.
  - split_and!; [by intros d ?%elem_of_nil | done | done].
  - destruct (fix_day days d) as [days' ch] eqn:Hfix. cbn [fst snd].
    destruct (IH days' (c || ch)) as (Hin & Hkeep & Hsame).
    fold (fix_days ds (days', c || ch)).
    assert (days' = (fix_day days d).1) as Hd' by by rewrite Hfix.
    split_and!.
    + intros d0 [->|Hd0]%elem_of_cons; [|by apply Hin].
      apply Hkeep. rewrite Hd'. apply fix_day_six.
    + intros d0 Hd0. apply Hkeep. rewrite Hd'. by apply fix_day_other.
    + intros Hr. destruct (Hsame Hr) as [-> [-> ->]%orb_false_elim].
      split; [|done]. rewrite Hd'. apply fix_day_unchanged. by rewrite Hfix.
Qed.

Lemma fix_days_noop ds days c :
  (∀ d, d ∈ ds → six_slots days d) → fix_days ds (days, c) = (days, c).
Proof.
  revert c. induction ds as [|d ds IH]; intros c Hall; cbn; [done|].
  rewrite fix_day_noop by (apply Hall; left). cbn [fst snd].
  rewrite orb_false_r. apply IH. intros d0 Hd0. apply Hall. by right.
Qed.

Lemma fix_week_stable days :
  fix_week (fix_week days).1 = ((fix_week days).1, false)
  ∧ ((fix_week days).2 = false → (fix_week days).1 = days).
Proof.
  unfold fix_week.
  destruct (fix_days_spec week days false) as (Hin & _ & Hsame).
  split; [by apply fix_days_noop | by intros [-> _]%Hsame].
Qed.

Local Arguments fix_week : simpl never.

Lemma fix_week_empty_timetable days :
  empty_timetable = VObj days → fix_week days = (days, false).
Proof.
  intros [= <-]. apply fix_days_noop. intros d Hd.
  exists [VStr ""; VStr ""; VStr ""; VStr ""; VStr ""; VStr ""].
  split; [|done]. unfold week in Hd.
  repeat (apply elem_of_cons in Hd as [->|Hd]; [by vm_compute|]).
  by apply elem_of_nil in Hd.
Qed.

Lemma ensure_timetable_stable c c' ch :
  ensure_timetable c = Ret (c', ch) →
  (ch = false → c' = c) ∧ ∃ ch', ensure_timetable c' = Ret (c', ch').
Proof.
  destruct c as [| | | | | |o]; cbn; try (intros [= <- <-]; by eauto).
  unfold Js.get.
  destruct (o !! "timetable") as [t|] eqn:Ht; cbn.
  2:{ intros [= <- <-]. split; [done|]. cbn. unfold Js.get.
      rewrite lookup_insert_eq. cbn.
      rewrite (fix_week_empty_timetable _ eq_refl). cbn.
      rewrite insert_insert_eq. by eauto. }
  destruct (Js.truthy t) eqn:Htruthy; cbn.
  2:{ intros [= <- <-]. split; [done|]. cbn. unfold Js.get.
      rewrite lookup_insert_eq. cbn.
      rewrite (fix_week_empty_timetable _ eq_refl). cbn.
      rewrite insert_insert_eq. by eauto. }
  destruct t as [| | | | |l|days]; try done.
  - intros [= <- <-]. split; [done|]. cbn. unfold Js.get. rewrite Ht. cbn.
    by eauto.
  - destruct (fix_week days) as [days' chd] eqn:Hfix.
    intros [= <- <-].
    destruct (fix_week_stable days) as [Hnoop Hsame].
    rewrite Hfix in Hnoop, Hsame. cbn [fst snd] in Hnoop, Hsame.
    split.
    + intros ->. rewrite Hsame by done. by rewrite insert_id.
    + cbn. unfold Js.get. rewrite lookup_insert_eq. cbn. rewrite Hnoop.
      rewrite insert_insert_eq. by eauto.
Qed.

Lemma ensure_timetables_stable l l' ch :
  ensure_timetables l = Ret (l', ch) →
  (ch = false → l' = l) ∧ ∃ ch', ensure_timetables l' = Ret (l', ch').
Proof.
  revert l' ch. induction l as [|c l IH]; intros l' ch; cbn.
  - intros [= <- <-]. by eauto.
  - destruct (ensure_timetable c) as [[c' ch1]|e] eqn:Hc; [|done].
    destruct (ensure_timetables l) as [[l1 ch2]|e] eqn:Hl; [|done].
    intros [= <- <-].
    destruct (ensure_timetable_stable _ _ _ Hc) as [Hc1 [ch1' Hc2]].
    destruct (IH _ _ eq_refl) as [Hl1 [ch2' Hl2]].
    split.
    + intros [-> ->]%orb_false_elim. by rewrite Hc1, Hl1.
    + cbn. rewrite Hc2, Hl2. by eauto.
Qed.

Lemma courses_or_empty_truthy (meta : gmap string value) l :
  Js.truthy (Js.get meta "courses") = true →
  courses_or_empty meta = Ret l → meta !! "courses" = Some (VArr l).
Proof.
  unfold courses_or_empty, Js.or_else, Js.get. intros ->.
  destruct (meta !! "courses") as [[]|]; cbn; congruence.
Qed.

(** What [ensureDefaults] makes of a loaded document [d] only replaces fields
    by arrays, is [d] itself when the flag is not set, and is left alone by a
    second pass. *)
Lemma ensure_meta_stable d m ch :
  ensure_meta d = Ret (m, ch) →
  arrays_over m d ∧ (ch = false → m = d) ∧ ∃ ch', ensure_meta m = Ret (m, ch').
Proof.
  unfold ensure_meta.
  destruct (ensure_array_spec "courses" d false) as (Tc & Ac & Oc & Sc).
  destruct (ensure_array "courses" (d, false)) as [m1 c1]. cbn [fst snd] in *.
  destruct (ensure_array_spec "subjects" m1 c1) as (Ts & As & Os & Ss).
  destruct (ensure_array "subjects" (m1, c1)) as [m2 c2]. cbn [fst snd] in *.
  destruct (ensure_array_spec "teachers" m2 c2) as (Tt & At & Ot & St).
  destruct (ensure_array "teachers" (m2, c2)) as [m3 c3]. cbn [fst snd] in *.
  assert (Js.truthy (Js.get m3 "courses") = true
          ∧ Js.truthy (Js.get m3 "subjects") = true) as [Tc3 Ts3].
  { unfold Js.get in *. split.
    - by rewrite (Ot "courses"), (Os "courses").
    - by rewrite (Ot "subjects"). }
  destruct (courses_or_empty m3) as [l|e] eqn:Hl; [|done].
  apply courses_or_empty_truthy in Hl as Hl'; [|done].
  destruct (ensure_timetables l) as [[l' ch']|e] eqn:Hl2; [|done].
  intros [= <- <-].
  destruct (ensure_timetables_stable _ _ _ Hl2) as [Hsame [ch'' Hstable]].
  split_and!.
  - apply arrays_over_insert. intros k.
    destruct (At k) as [->|?]; [|by right].
    destruct (As k) as [->|?]; [|by right]. apply Ac.
  - intros [-> ->]%orb_false_elim. rewrite Hsame by done.
    rewrite insert_id by done.
    destruct (St eq_refl) as [-> ->]. destruct (Ss eq_refl) as [-> ->].
    by destruct (Sc eq_refl) as [-> _].
  - set (m := <["courses" := VArr l']> m3).
    assert (Js.truthy (Js.get m "courses") = true
            ∧ Js.truthy (Js.get m "subjects") = true
            ∧ Js.truthy (Js.get m "teachers") = true) as (T1 & T2 & T3).
    { subst m. unfold Js.get in *.
      rewrite lookup_insert_eq, !lookup_insert_ne by done. done. }
    rewrite !ensure_array_truthy by done.
    assert (courses_or_empty m = Ret l') as ->.
    { unfold courses_or_empty, Js.or_else, Js.get. subst m.
      by rewrite lookup_insert_eq. }
    rewrite Hstable. subst m. rewrite insert_insert_eq. by eauto.
Qed.

Local Arguments ensure_meta : simpl never.

Lemma loadMeta_reliable w :
  reliable w →
  loadMeta w = (Ret (default empty_meta (meta_doc (store w))), tick w).
Proof.
  intros Hw. unfold loadMeta, try_catch, meta_get, mbind, M_bind.
  backend_ok. by destruct (meta_doc (store w)).
Qed.

Lemma saveMeta_reliable w meta :
  reliable w →
  saveMeta meta w
  = (Ret ok_plain,
     set_store (set_meta (match meta_doc (store w) with
                          | Some d => merge_fields meta d
                          | None => meta
                          end) (store w)) (tick w)).
Proof.
  intros Hw. unfold saveMeta, try_catch, meta_set_merge, mbind, M_bind.
  by backend_ok.
Qed.

(** What [ensureDefaults] leaves when the backend answers: the repaired
    document when the repair changed something, the store as it was when it
    did not, when it threw, and when there is no metadata document. *)
Lemma ensureDefaults_reliable w :
  reliable w →
  reliable (after ensureDefaults w)
  ∧ store (after ensureDefaults w)
    = match meta_doc (store w) with
      | Some d =>
          match ensure_meta d with
          | Ret (m, true) => set_meta m (store w)
          | _ => store w
          end
      | None => store w
      end.
Proof.
  intros Hw. unfold after, ensureDefaults, try_catch, mbind, M_bind.
  rewrite loadMeta_reliable by done.
  destruct (meta_doc (store w)) as [d|] eqn:Hd; cbn [default from_option id].
  - unfold lift. destruct (ensure_meta d) as [[m [|]]|e] eqn:Hm;
      cbn [fst snd]; [| split; [solve_reliable | done] ..].
    rewrite saveMeta_reliable by solve_reliable.
    cbn [fst snd store tick]. rewrite Hd.
    split; [solve_reliable|].
    apply ensure_meta_stable in Hm as (Hover & _).
    by rewrite merge_fields_arrays_over.
  - unfold lift. assert (∃ m, ensure_meta empty_meta = Ret (m, false)) as [m ->]
      by (eexists; vm_compute; reflexivity).
    cbn [fst snd]. split; [solve_reliable | done].
Qed.

Lemma ensureDefaults_twice w :
  reliable w →
  store (after ensureDefaults (after ensureDefaults w))
  = store (after ensureDefaults w).
Proof.
  intros Hw.
  destruct (ensureDefaults_reliable w Hw) as [Hw1 Hs1].
  destruct (ensureDefaults_reliable _ Hw1) as [_ Hs2].
  rewrite Hs2. clear Hs2. rewrite Hs1.
  destruct (meta_doc (store w)) as [d|] eqn:Hd; [|by rewrite Hd].
  destruct (ensure_meta d) as [[m [|]]|e] eqn:Hm; try by rewrite Hd, Hm.
  cbn [meta_doc set_meta].
  apply ensure_meta_stable in Hm as (_ & _ & [ch' ->]).
  by destruct ch'.
Qed.

(** ** The seeding variant: repairing course records *)

Lemma same_backend_trans w1 w2 w3 :
  same_backend w1 w2 → same_backend w2 w3 → same_backend w1 w3.
Proof. intros [? ?] [? ?]. split; congruence. Qed.

Lemma same_backend_reliable w w' : same_backend w w' → reliable w → reliable w'.
Proof. intros [_ Hf]. unfold reliable. by rewrite Hf. Qed.

(** The repair of any record ends in the same backend; what it returns is
    repaired, or is the blank course it puts in place of a falsy record. *)
Lemma repair_course_spec c w :
  same_backend w (Seeding.repair_course c w).2
  ∧ ∀ c', (Seeding.repair_course c w).1 = Ret c' →
          repaired c' ∨ c' = Seeding.blank_course.
Proof.
  unfold Seeding.repair_course.
  destruct (Js.truthy c) eqn:Hc; cbn [negb]; [|split; [done|]; intros c' [= <-]; by right].
  destruct c as [| | | | |l|o]; try (split; [done|]; by intros c' [=]).
  - split; [done|]. intros c' [= <-]. by left.
  - set (o' := if Js.truthy (Js.get o "students") then o
               else <["students" := VArr []]> o).
    assert (Js.truthy (Js.get o' "students") = true) as Hst.
    { subst o'. destruct (Js.truthy (Js.get o "students")) eqn:E; [done|].
      unfold Js.get. by rewrite lookup_insert_eq. }
    destruct (Js.truthy (Js.get o' "id")) eqn:Hid.
    { split; [done|]. intros c' [= <-]. left. by split. }
    destruct (Js.truthy (Js.get o' "name")) eqn:Hname.
    { split; [done|]. intros c' [= <-]. left. split.
      - unfold Js.get in *. by rewrite lookup_insert_ne.
      - unfold Js.get at 1. by rewrite lookup_insert_eq. }
    split; [done|]. intros c' [= <-]. left. split.
    + unfold Js.get in *. by rewrite lookup_insert_ne.
    + unfold Js.get. by rewrite lookup_insert_eq.
Qed.

(** A repaired record comes back as it is. *)
Lemma repair_course_repaired c w :
  repaired c → (Seeding.repair_course c w).1 = Ret c.
Proof.
  unfold Seeding.repair_course.
  destruct c as [| | | | |l|o]; try done. cbn. intros [-> ->]. done.
Qed.

(** The blank course is repaired by a second pass. *)
Lemma repair_course_blank w :
  ∃ c', (Seeding.repair_course Seeding.blank_course w).1 = Ret c' ∧ repaired c'.
Proof.
  eexists. split; [reflexivity|]. split.
  - unfold Js.get. by rewrite lookup_insert_ne.
  - unfold Js.get. by rewrite lookup_insert_eq.
Qed.

Lemma map_m_cons {A B} (f : A → M B) x r w :
  Seeding.map_m f (x :: r) w
  = match f x w with
    | (Ret y, w1) =>
        match Seeding.map_m f r w1 with
        | (Ret r', w2) => (Ret (y :: r'), w2)
        | (Throw e, w2) => (Throw e, w2)
        end
    | (Throw e, w1) => (Throw e, w1)
    end.
Proof.
  cbn. unfold mbind, M_bind. destruct (f x w) as [[y|e] w1]; [|done].
  by destruct (Seeding.map_m f r w1) as [[r'|e] w2].
Qed.

Lemma map_m_repair_spec cs w :
  same_backend w (Seeding.map_m Seeding.repair_course cs w).2
  ∧ ∀ cs', (Seeding.map_m Seeding.repair_course cs w).1 = Ret cs' →
           List.length cs' = List.length cs
           ∧ Forall (λ c, repaired c ∨ c = Seeding.blank_course) cs'.
Proof.
  revert w. induction cs as [|c cs IH]; intros w.
  - split; [done|]. intros cs' [= <-]. by split.
  - rewrite map_m_cons. destruct (repair_course_spec c w) as [Hb Hc].
    destruct (Seeding.repair_course c w) as [[y|e] w1]; cbn [fst snd] in *;
      [|by split].
    destruct (IH w1) as [Hb1 Hcs].
    destruct (Seeding.map_m Seeding.repair_course cs w1) as [[r'|e] w2];
      cbn [fst snd] in *.
    + split; [by eapply same_backend_trans|]. intros cs' [= <-].
      destruct (Hcs r' eq_refl) as [Hlen Hall].
      split; [cbn; by rewrite Hlen | constructor; auto].
    + split; [by eapply same_backend_trans | done].
Qed.

Lemma map_m_repair_second cs w :
  Forall (λ c, repaired c ∨ c = Seeding.blank_course) cs →
  ∃ cs', (Seeding.map_m Seeding.repair_course cs w).1 = Ret cs'
         ∧ List.length cs' = List.length cs ∧ Forall repaired cs'.
Proof.
  intros Hall. revert w. induction Hall as [|c cs Hc _ IH]; intros w.
  - by exists [].
  - rewrite map_m_cons.
    assert (∃ y, (Seeding.repair_course c w).1 = Ret y ∧ repaired y)
      as (y & Hy & Hry).
    { destruct Hc as [Hc | ->]; [|apply repair_course_blank].
      exists c. split; [by apply repair_course_repaired | done]. }
    destruct (Seeding.repair_course c w) as [[y'|e] w1]; cbn [fst] in Hy;
      [|done]. injection Hy as ->.
    destruct (IH w1) as (r' & Hr' & Hlen & Hall').
    destruct (Seeding.map_m Seeding.repair_course cs w1) as [[r''|e] w2];
      cbn [fst] in Hr'; [|done]. injection Hr' as ->.
    exists (y :: r'). split_and!; [done | cbn; by rewrite Hlen | by constructor].
Qed.

Lemma map_m_repair_repaired cs w :
  Forall repaired cs → (Seeding.map_m Seeding.repair_course cs w).1 = Ret cs.
Proof.
  intros Hall. revert w. induction Hall as [|c cs Hc _ IH]; intros w; [done|].
  rewrite map_m_cons. pose proof (repair_course_repaired c w Hc) as Hy.
  destruct (Seeding.repair_course c w) as [[y'|e] w1]; cbn [fst] in Hy;
    [|done]. injection Hy as ->.
  specialize (IH w1).
  destruct (Seeding.map_m Seeding.repair_course cs w1) as [[r''|e] w2];
    cbn [fst] in IH; [|done]. by injection IH as ->.
Qed.

(** No string heads a list of repaired records: the conversion of the older
    layout does not apply to a repaired document. *)
Lemma convert_names_repaired (meta : gmap string value) cs :
  meta !! "courses" = Some (VArr cs) → Forall repaired cs →
  Seeding.convert_names meta = meta.
Proof.
  intros Hcs Hall. unfold Seeding.convert_names, Js.get. rewrite Hcs. cbn.
  destruct Hall as [|c cs Hc _]; [done|]. by destruct c.
Qed.

Lemma convert_names_arrays_over d : arrays_over (Seeding.convert_names d) d.
Proof.
  unfold Seeding.convert_names.
  destruct (Js.get d "courses") as [| | | | |[|[] ?]|];
    first [ apply arrays_over_refl | apply arrays_over_insert, arrays_over_refl ].
Qed.


(** ** The seeding variant: ensureDefaults *)

Lemma tick_same_backend_reliable w w1 :
  reliable w → same_backend (tick w) w1 → reliable w1.
Proof.
  intros Hw Hb. eapply same_backend_reliable; [done|]. by apply reliable_tick.
Qed.

(** What the seeding variant's [loadMeta] returns when the backend answers:
    the empty default, or the stored document with its courses converted and
    repaired once. *)
Lemma seeding_loadMeta_reliable w :
  reliable w →
  ∃ meta w1,
    Seeding.loadMeta w = (Ret meta, w1) ∧ same_backend (tick w) w1
    ∧ (meta = empty_meta
       ∨ ∃ d cs', meta_doc (store w) = Some d
                  ∧ meta = <["courses" := VArr cs']> (Seeding.convert_names d)
                  ∧ Forall (λ c, repaired c ∨ c = Seeding.blank_course) cs').
Proof.
  intros Hw. unfold Seeding.loadMeta, try_catch, meta_get, mbind, M_bind.
  backend_ok. change (set_store (store w) (tick w)) with (tick w).
  destruct (meta_doc (store w)) as [d|] eqn:Hd;
    [|do 2 eexists; split_and!; [done..|by left]].
  unfold lift.
  destruct (courses_or_empty (Seeding.convert_names d)) as [cs|e];
    [|do 2 eexists; split_and!; [done..|by left]].
  destruct (map_m_repair_spec cs (tick w)) as [Hb Hcs].
  destruct (Seeding.map_m Seeding.repair_course cs (tick w)) as [[cs'|e] w1];
    cbn [fst snd] in *; [|do 2 eexists; split_and!; [done..|by left]].
  destruct (Hcs cs' eq_refl) as [_ Hall].
  do 2 eexists. split_and!; [done..|]. right. by exists d, cs'.
Qed.

Lemma seeding_loadMeta_settled w meta cs :
  reliable w → meta_doc (store w) = Some meta →
  meta !! "courses" = Some (VArr cs) → Forall repaired cs →
  ∃ w1, Seeding.loadMeta w = (Ret meta, w1) ∧ same_backend (tick w) w1.
Proof.
  intros Hw Hd Hcs Hall.
  unfold Seeding.loadMeta, try_catch, meta_get, mbind, M_bind.
  backend_ok. change (set_store (store w) (tick w)) with (tick w).
  rewrite Hd. unfold lift.
  rewrite (convert_names_repaired meta cs) by done.
  assert (courses_or_empty meta = Ret cs) as ->.
  { unfold courses_or_empty, Js.or_else, Js.get. by rewrite Hcs. }
  destruct (map_m_repair_spec cs (tick w)) as [Hb _].
  pose proof (map_m_repair_repaired cs (tick w) Hall) as Hr.
  destruct (Seeding.map_m Seeding.repair_course cs (tick w)) as [[cs'|e] w1];
    cbn [fst snd] in *; [|done]. injection Hr as ->.
  rewrite insert_id by done. by eauto.
Qed.

Lemma seeding_saveMeta_reliable w meta :
  reliable w →
  Seeding.saveMeta meta w
  = (Ret ok_plain,
     set_store (set_meta (match meta_doc (store w) with
                          | Some d => merge_fields meta d
                          | None => meta
                          end) (store w)) (tick w)).
Proof.
  intros Hw. unfold Seeding.saveMeta, try_catch, meta_set_merge, mbind, M_bind.
  by backend_ok.
Qed.

Lemma merge_fields_diag m : merge_fields m m = m.
Proof. apply merge_fields_arrays_over, arrays_over_refl. Qed.

Lemma nonempty_array_length l l' :
  List.length l' = List.length l →
  Seeding.nonempty_array (VArr l') = Seeding.nonempty_array (VArr l).
Proof. by destruct l, l'. Qed.

Lemma not_all_empty (a b c : bool) :
  negb a && negb b && negb c = false ↔ a || b || c = true.
Proof. destruct a, b, c; naive_solver. Qed.

(** The metadata half of the seeding variant's [ensureDefaults], on what
    [loadMeta] returned: it ends with a metadata document of repaired courses
    that is not empty, the entries untouched. *)
Lemma seed_or_repair_meta_first w meta :
  reliable w →
  (meta = empty_meta
   ∨ ∃ d cs', meta_doc (store w) = Some d
              ∧ meta = <["courses" := VArr cs']> (Seeding.convert_names d)
              ∧ Forall (λ c, repaired c ∨ c = Seeding.blank_course) cs') →
  ∃ w2, Seeding.seed_or_repair_meta meta w = (Ret (), w2) ∧ reliable w2
        ∧ entries (store w2) = entries (store w)
        ∧ ∃ m cs, meta_doc (store w2) = Some m
                  ∧ m !! "courses" = Some (VArr cs) ∧ Forall repaired cs
                  ∧ (Seeding.nonempty_array (Js.get m "courses")
                     || Seeding.nonempty_array (Js.get m "subjects")
                     || Seeding.nonempty_array (Js.get m "teachers")) = true.
Proof.
  intros Hw Hmeta. unfold Seeding.seed_or_repair_meta.
  destruct (negb (Seeding.nonempty_array (Js.get meta "courses"))
            && negb (Seeding.nonempty_array (Js.get meta "subjects"))
            && negb (Seeding.nonempty_array (Js.get meta "teachers")))
    eqn:Hcond.
  - unfold mbind, M_bind. rewrite seeding_saveMeta_reliable by done.
    eexists. split_and!; [done | solve_reliable | done |].
    cbn [store set_store meta_doc set_meta].
    set (m := match meta_doc (store w) with
              | Some d => merge_fields Seeding.defaultMeta d
              | None => Seeding.defaultMeta
              end).
    assert (∃ c, Seeding.defaultMeta !! "courses" = Some (VArr [c]) ∧ repaired c)
      as (c & Hdc & Hc).
    { eexists. split; [reflexivity|]. by vm_compute. }
    assert (m !! "courses" = Some (VArr [c])) as Hm.
    { subst m. destruct (meta_doc (store w)) as [d|]; [|done].
      unfold merge_fields. rewrite lookup_merge, Hdc.
      by destruct (d !! "courses"). }
    exists m, [c]. split_and!; [done | done | by constructor |].
    unfold Js.get at 1. by rewrite Hm.
  - destruct Hmeta as [-> | (d & cs' & Hd & -> & Hall)]; [by vm_compute in Hcond|].
    apply not_all_empty in Hcond.
    set (meta := <["courses" := VArr cs']> (Seeding.convert_names d)) in *.
    assert (courses_or_empty meta = Ret cs') as Hcs.
    { unfold courses_or_empty, Js.or_else, Js.get. subst meta.
      by rewrite lookup_insert_eq. }
    unfold mbind, M_bind, lift. rewrite Hcs.
    destruct (map_m_repair_spec cs' w) as [Hb _].
    destruct (map_m_repair_second cs' w Hall) as (cs'' & Hr & Hlen & Hall').
    destruct (Seeding.map_m Seeding.repair_course cs' w) as [[r|e] w1];
      cbn [fst snd] in *; [|done]. injection Hr as ->.
    assert (reliable w1) as Hw1 by by eapply same_backend_reliable.
    destruct Hb as [Hst1 _].
    rewrite seeding_saveMeta_reliable by done. rewrite Hst1, Hd.
    eexists. split_and!; [done | solve_reliable | done |].
    cbn [store set_store meta_doc set_meta].
    rewrite merge_fields_arrays_over.
    2:{ subst meta. do 2 apply arrays_over_insert. apply convert_names_arrays_over. }
    exists (<["courses" := VArr cs'']> meta), cs''.
    split_and!; [done | apply lookup_insert_eq | done |].
    unfold Js.get in *. rewrite lookup_insert_eq, !lookup_insert_ne by done.
    subst meta. rewrite lookup_insert_eq in Hcond. cbn [default from_option id] in *.
    by rewrite (nonempty_array_length cs' cs'').
Qed.

Lemma seed_or_repair_meta_settled w meta cs :
  reliable w → meta_doc (store w) = Some meta →
  meta !! "courses" = Some (VArr cs) → Forall repaired cs →
  (Seeding.nonempty_array (Js.get meta "courses")
   || Seeding.nonempty_array (Js.get meta "subjects")
   || Seeding.nonempty_array (Js.get meta "teachers")) = true →
  ∃ w2, Seeding.seed_or_repair_meta meta w = (Ret (), w2) ∧ reliable w2
        ∧ store w2 = store w.
Proof.
  intros Hw Hd Hcs Hall Hne. unfold Seeding.seed_or_repair_meta.
  apply not_all_empty in Hne. rewrite Hne.
  assert (courses_or_empty meta = Ret cs) as ->.
  { unfold courses_or_empty, Js.or_else, Js.get. by rewrite Hcs. }
  unfold mbind, M_bind, lift.
  destruct (map_m_repair_spec cs w) as [Hb _].
  pose proof (map_m_repair_repaired cs w Hall) as Hr.
  destruct (Seeding.map_m Seeding.repair_course cs w) as [[r|e] w1];
    cbn [fst snd] in *; [|done]. injection Hr as ->.
  assert (reliable w1) as Hw1 by by eapply same_backend_reliable.
  destruct Hb as [Hst1 _].
  rewrite seeding_saveMeta_reliable by done. rewrite Hst1, Hd.
  rewrite insert_id by done. rewrite merge_fields_diag.
  eexists. split_and!; [done | solve_reliable |].
  cbn [store set_store]. unfold set_meta.
  destruct (store w) as [md es]. cbn in *. by rewrite Hd.
Qed.

Section SeedingProperties.

Variable order_by_date_hour :
  list (string * gmap string value) → list (string * gmap string value).

(** The ordered query returns the documents it selects, each once. *)
Hypothesis order_by_date_hour_perm : ∀ l, order_by_date_hour l ≡ₚ l.

Lemma seeding_loadEntries_reliable w :
  reliable w →
  Seeding.loadEntries order_by_date_hour w
  = (Ret (entry_view <$>
            order_by_date_hour
              (filter (λ p, has_date_hour p = true)
                      (map_to_list (entries (store w))))), tick w).
Proof.
  intros Hw.
  unfold Seeding.loadEntries, try_catch, query_by_date_hour, mbind, M_bind.
  by backend_ok.
Qed.

(** The ordered query finds something exactly when an entry has both
    fields. *)
Lemma query_nonempty (es : gmap string (gmap string value)) p :
  p ∈ map_to_list es → has_date_hour p = true →
  entry_view <$>
    order_by_date_hour (filter (λ p, has_date_hour p = true) (map_to_list es))
  ≠ [].
Proof.
  intros Hp Hhas Hnil. apply fmap_nil_inv in Hnil.
  pose proof (order_by_date_hour_perm
                (filter (λ p, has_date_hour p = true) (map_to_list es))) as Hperm.
  rewrite Hnil in Hperm. apply Permutation_nil_l in Hperm.
  assert (p ∈ filter (λ p, has_date_hour p = true) (map_to_list es)) as Hin
    by by apply list_elem_of_filter.
  rewrite <- Hperm in Hin. by apply elem_of_nil in Hin.
Qed.

Lemma query_found (es : gmap string (gmap string value)) x xs :
  entry_view <$>
    order_by_date_hour (filter (λ p, has_date_hour p = true) (map_to_list es))
  = x :: xs →
  ∃ p, p ∈ map_to_list es ∧ has_date_hour p = true.
Proof.
  intros Heq.
  destruct (order_by_date_hour
              (filter (λ p, has_date_hour p = true) (map_to_list es)))
    as [|p ps] eqn:Hq; [done|].
  assert (p ∈ filter (λ p, has_date_hour p = true) (map_to_list es)) as Hin.
  { rewrite <- (order_by_date_hour_perm _), Hq. by left. }
  apply list_elem_of_filter in Hin as [? ?]. by exists p.
Qed.

Lemma sample_has_date_hour id date createdAt :
  has_date_hour (id, Seeding.sample date createdAt) = true.
Proof.
  unfold has_date_hour, Seeding.sample. cbn [snd].
  apply andb_true_intro. split; apply bool_decide_eq_true;
    by simplify_map_eq.
Qed.

(** The sample half: it ends with an entry the ordered query finds, the
    metadata untouched. *)
Lemma seed_sample_first w :
  reliable w →
  ∃ w2, Seeding.seed_sample order_by_date_hour w = (Ret (), w2) ∧ reliable w2
        ∧ meta_doc (store w2) = meta_doc (store w)
        ∧ ∃ p, p ∈ map_to_list (entries (store w2)) ∧ has_date_hour p = true.
Proof.
  intros Hw. unfold Seeding.seed_sample, mbind, M_bind.
  rewrite seeding_loadEntries_reliable by done.
  destruct (entry_view <$> _) as [|x xs] eqn:Hq.
  - unfold Seeding.read_clock, collection_add. cbn [today server_time tick].
    rewrite request_reliable by solve_reliable.
    eexists. split_and!; [done | solve_reliable | done |].
    cbn [store set_store set_entries entries tick].
    eexists (_, _). split; [|apply sample_has_date_hour].
    apply elem_of_map_to_list. cbn. apply lookup_insert_eq.
  - eexists. split_and!; [done | solve_reliable | done |].
    by eapply query_found.
Qed.

Lemma seed_sample_settled w p :
  reliable w → p ∈ map_to_list (entries (store w)) → has_date_hour p = true →
  Seeding.seed_sample order_by_date_hour w = (Ret (), tick w).
Proof.
  intros Hw Hp Hhas. unfold Seeding.seed_sample, mbind, M_bind.
  rewrite seeding_loadEntries_reliable by done.
  pose proof (query_nonempty _ p Hp Hhas) as Hne.
  by destruct (entry_view <$> _).
Qed.

(** One call, the backend answering, settles the store. *)
Lemma seeding_ensureDefaults_first w :
  reliable w →
  reliable (after (Seeding.ensureDefaults order_by_date_hour) w)
  ∧ settled (store (after (Seeding.ensureDefaults order_by_date_hour) w)).
Proof.
  intros Hw. unfold after, Seeding.ensureDefaults, try_catch, mbind, M_bind.
  destruct (seeding_loadMeta_reliable w Hw) as (meta & w1 & -> & Hb1 & Hmeta).
  assert (reliable w1) as Hw1 by by eapply tick_same_backend_reliable.
  destruct Hb1 as [Hst1 _]. cbn [store tick] in Hst1. rewrite <- Hst1 in Hmeta.
  destruct (seed_or_repair_meta_first w1 meta Hw1 Hmeta)
    as (w2 & -> & Hw2 & _ & Hsettled).
  destruct (seed_sample_first w2 Hw2) as (w3 & -> & Hw3 & Hmd & Hfound).
  cbn [snd]. split; [done|]. split; [|done].
  rewrite Hmd. done.
Qed.

(** A call on a settled store, the backend answering, changes nothing. *)
Lemma seeding_ensureDefaults_settled w :
  reliable w → settled (store w) →
  store (after (Seeding.ensureDefaults order_by_date_hour) w) = store w.
Proof.
  intros Hw [(meta & cs & Hd & Hcs & Hall & Hne) (p & Hp & Hhas)].
  unfold after, Seeding.ensureDefaults, try_catch, mbind, M_bind.
  destruct (seeding_loadMeta_settled w meta cs Hw Hd Hcs Hall)
    as (w1 & -> & Hb1).
  assert (reliable w1) as Hw1 by by eapply tick_same_backend_reliable.
  destruct Hb1 as [Hst1 _]. cbn [store tick] in Hst1.
  rewrite <- Hst1 in Hd.
  destruct (seed_or_repair_meta_settled w1 meta cs Hw1 Hd Hcs Hall Hne)
    as (w2 & -> & Hw2 & Hst2).
  rewrite (seed_sample_settled w2 p) by (by rewrite ?Hst2, ?Hst1).
  cbn. congruence.
Qed.

(** C7.  [ensureDefaults] is idempotent, the backend answering: from every
    starting store, metadata present or absent and whatever it holds, a
    second call in a row leaves the store the first call left.  For the
    timetable variant this is the metadata document (the entries are never
    touched); for the seeding variant it is the metadata document and the
    entries collection, the ordered query being a permutation of the
    documents it selects. *)
Theorem ensureDefaults_idempotent (w : World) :
  reliable w →
  (store (after ensureDefaults (after ensureDefaults w))
   = store (after ensureDefaults w)
   ∧ entries (store (after ensureDefaults w)) = entries (store w))
  ∧ store (after (Seeding.ensureDefaults order_by_date_hour)
             (after (Seeding.ensureDefaults order_by_date_hour) w))
    = store (after (Seeding.ensureDefaults order_by_date_hour) w).
Proof.
  intros Hw. split_and!.
  - by apply ensureDefaults_twice.
  - apply ensureDefaults_keeps.
  - destruct (seeding_ensureDefaults_first w Hw) as [Hw1 Hsettled].
    by apply seeding_ensureDefaults_settled.
Qed.

End SeedingProperties.

(** ** The other variants, where they differ *)

(** The opaque-id variant's [addEntry] checks nothing: the same entry added
    twice is stored twice, under two generated ids. *)
Lemma plain_addEntry_stores_twice :
  returned (Plain.addEntry intro_entry) (quiet_world empty_db)
  = Ret (ok_id "auto1")
  ∧ returned (Plain.addEntry intro_entry)
             (after (Plain.addEntry intro_entry) (quiet_world empty_db))
    = Ret (ok_id "auto2")
  ∧ entries (store (after (Plain.addEntry intro_entry)
                          (after (Plain.addEntry intro_entry)
                                 (quiet_world empty_db))))
    = {[ "auto1" := intro_entry; "auto2" := intro_entry ]}.
Proof. split_and!; vm_compute; reflexivity. Qed.

(** With the ordered query rejected, the seeding variant's [loadEntries]
    reports no entries and every [ensureDefaults] adds one more sample: the
    second call leaves an entry the first did not. *)
Lemma seeding_ensureDefaults_without_index :
  let once := after (Seeding.ensureDefaults (λ l, l)) no_index_world in
  let twice := after (Seeding.ensureDefaults (λ l, l)) once in
  meta_doc (store twice) = meta_doc (store once)
  ∧ entries (store once) !! "auto2" = None
  ∧ is_Some (entries (store twice) !! "auto2").
Proof. split_and!; vm_compute; eauto. Qed.

(** * The statements at concrete stores *)

Lemma quiet_world_reliable s : reliable (quiet_world s).
Proof. apply Forall_nil_2. Defined.


Lemma updateEntry_rename_all_or_nothing_witness :
  returned (updateEntry (Some "RSA261__2024-05-01__1") next_day_entry)
           (quiet_world two_entries_db)
  = Ret (failed "duplicate_target")
  ∧ store (after (updateEntry (Some "RSA261__2024-05-01__1") next_day_entry)
                 (quiet_world two_entries_db))
    = two_entries_db.
Proof.
  assert (makeEntryId next_day_entry ≠ "RSA261__2024-05-01__1") as Hneq
    by (vm_compute; discriminate).
  destruct (updateEntry_rename_all_or_nothing (quiet_world two_entries_db)
              "RSA261__2024-05-01__1" next_day_entry Hneq) as [Hcollide _].
  destruct (Hcollide intro_entry next_day_entry) as (Hr & Hst & _);
    [discriminate | vm_compute; reflexivity | vm_compute; reflexivity
    | vm_compute; reflexivity |].
  split; [apply Hr, quiet_world_reliable | exact Hst].
Defined.

Lemma locked_entry_is_frozen_witness :
  returned (updateEntry (Some "RSA261__2024-05-01__1") {[ "content" := VStr "x" ]})
           (quiet_world locked_db)
  = Ret (failed "locked")
  ∧ entries (store (after (run (λ l, l) (λ s, s) (AddEntry intro_entry))
                          (quiet_world locked_db)))
      !! "RSA261__2024-05-01__1"
    = Some locked_entry.
Proof.
  destruct (locked_entry_is_frozen (λ l, l) (λ s, s) (quiet_world locked_db)
              "RSA261__2024-05-01__1" locked_entry) as (Hupd & Hrun & _);
    [vm_compute; reflexivity | vm_compute; reflexivity |].
  split.
  - destruct (Hupd {[ "content" := VStr "x" ]}) as [Hr _].
    apply Hr; [apply quiet_world_reliable | discriminate].
  - apply Hrun; intros i; discriminate.
Defined.


Lemma toggleLockEntry_involutive_witness :
  store (after (toggleLockEntry "RSA261__2024-05-01__1")
               (after (toggleLockEntry "RSA261__2024-05-01__1")
                      (quiet_world locked_db)))
  = locked_db.
Proof.
  destruct (toggleLockEntry_involutive (quiet_world locked_db)
              "RSA261__2024-05-01__1" locked_entry) as (_ & (_ & _ & _ & Hback) & _);
    [apply quiet_world_reliable | vm_compute; reflexivity |].
  apply (Hback true). vm_compute; reflexivity.
Defined.

Lemma ensureDefaults_idempotent_witness :
  store (after ensureDefaults (after ensureDefaults (quiet_world short_monday_db)))
  = store (after ensureDefaults (quiet_world short_monday_db))
  ∧ store (after (Seeding.ensureDefaults (λ l, l))
                 (after (Seeding.ensureDefaults (λ l, l)) (quiet_world empty_db)))
    = store (after (Seeding.ensureDefaults (λ l, l)) (quiet_world empty_db)).
Proof.
  split.
  - destruct (ensureDefaults_idempotent (λ l, l) (λ l, Permutation_refl l)
                (quiet_world short_monday_db)) as [[H _] _];
      [apply quiet_world_reliable | exact H].
  - destruct (ensureDefaults_idempotent (λ l, l) (λ l, Permutation_refl l)
                (quiet_world empty_db)) as [_ H];
      [apply quiet_world_reliable | exact H].
Defined.

Lemma makeEntryId_not_injective_witness :
  returned (addEntry {[ "course" := VStr "A_B"; "date" := VStr "2024-05-01";
                        "hour" := VStr "1" ]})
           (after (addEntry {[ "course" := VStr "A B"; "date" := VStr "2024-05-01";
                               "hour" := VStr "1" ]})
                  (quiet_world empty_db))
  = Ret (failed "duplicate").
Proof.
  destruct (makeEntryId_not_injective (quiet_world empty_db)
              (VStr "2024-05-01") (VStr "1")) as (_ & _ & Hadd).
  destruct Hadd as [_ H];
    [apply quiet_world_reliable | vm_compute; reflexivity | exact H].
Defined.


(** * Further properties of the facade *)

(** ** The parts of an entry id *)

Lemma id_char_not_space c : Js.is_id_char c = true → Js.is_space c = false.
Proof.
  destruct c as [[] [] [] [] [] [] [] []]; vm_compute; congruence.
Qed.

Lemma only_id_chars_keep s : only_id_chars (Js.keep_id_chars s) = true.
Proof.
  induction s as [|c s IH]; [done|]. cbn.
  destruct (Js.is_id_char c) eqn:Hc; [|done]. cbn. by rewrite Hc.
Qed.

Lemma only_id_chars_fixed s :
  only_id_chars s = true →
  Js.keep_id_chars s = s ∧ (∀ b, Js.replace_spaces b s = s) ∧ Js.trim s = s.
Proof.
  induction s as [|c s IH]; [done|]. cbn [only_id_chars].
  intros [Hc Hs]%andb_true_iff. destruct (IH Hs) as (Hk & Hr & Ht).
  pose proof (id_char_not_space c Hc) as Hsp.
  split_and!.
  - cbn. by rewrite Hc, Hk.
  - intros b. cbn. by rewrite Hsp, Hr.
  - unfold Js.trim in *. cbn [Js.trim_start]. rewrite Hsp.
    cbn [Js.trim_end]. rewrite Hsp. cbn [andb].
    destruct s as [|c' s']; [done|].
    cbn [only_id_chars] in Hs. apply andb_true_iff in Hs as [Hc' _].
    pose proof (id_char_not_space c' Hc') as Hsp'.
    cbn [Js.trim_start] in Ht. rewrite Hsp' in Ht. by rewrite Ht.
Qed.

(** X1.  What [safe] returns is made of characters of the id class only, and
    sanitising it again changes nothing; so an entry whose course, date and
    hour are replaced by their sanitised strings keeps its id. *)
Theorem safe_idempotent (entry : gmap string value) (v : value) :
  only_id_chars (safe v) = true
  ∧ safe (VStr (safe v)) = safe v
  ∧ makeEntryId {[ "course" := VStr (safe (Js.get entry "course"));
                   "date" := VStr (safe (Js.get entry "date"));
                   "hour" := VStr (safe (Js.get entry "hour")) ]}
    = makeEntryId entry.
Proof.
  assert (∀ v, only_id_chars (safe v) = true) as Hid.
  { intros v'. unfold safe. apply only_id_chars_keep. }
  assert (∀ v, safe (VStr (safe v)) = safe v) as Hsafe.
  { intros v'. destruct (only_id_chars_fixed _ (Hid v')) as (Hk & Hr & Ht).
    unfold safe at 1. unfold Js.or_else. cbn [Js.truthy].
    destruct (String.eqb_spec (safe v') "") as [He|_]; cbn [negb Js.to_string].
    - by rewrite He.
    - by rewrite Ht, Hr, Hk. }
  split_and!; [done..|].
  unfold makeEntryId.
  set (e := ({[ "course" := VStr (safe (Js.get entry "course"));
                "date" := VStr (safe (Js.get entry "date"));
                "hour" := VStr (safe (Js.get entry "hour")) ]}
             : gmap string value)).
  assert (Js.get e "course" = VStr (safe (Js.get entry "course"))
          ∧ Js.get e "date" = VStr (safe (Js.get entry "date"))
          ∧ Js.get e "hour" = VStr (safe (Js.get entry "hour")))
    as (-> & -> & ->).
  { subst e. unfold Js.get at 1 3 5. by simplify_map_eq. }
  by rewrite !Hsafe.
Qed.

(** ** Entries: what the operations leave alone and how they compose *)

(** X2.  Whatever the backend answers, [addEntry] leaves the metadata
    document and every stored entry as they are: the only document that can
    differ afterwards is a new one under the id derived from the entry. *)
Theorem addEntry_never_overwrites (w : World) (entry : gmap string value) :
  meta_doc (store (after (addEntry entry) w)) = meta_doc (store w)
  ∧ (∀ id d, entries (store w) !! id = Some d →
             entries (store (after (addEntry entry) w)) !! id = Some d)
  ∧ (∀ id, id ≠ makeEntryId entry →
           entries (store (after (addEntry entry) w)) !! id
           = entries (store w) !! id).
Proof.
  destruct (addEntry_cases w entry) as (r & _ & [(_ & Hfree & ->) | [_ ->]]);
    [|done].
  cbn. split_and!; [done | |].
  - intros id d Hd. rewrite lookup_insert_ne; [done | congruence].
  - intros id Hid. by rewrite lookup_insert_ne.
Qed.

Lemma deleteEntryById_cases w id :
  store (after (deleteEntryById id) w) = store w
  ∨ store (after (deleteEntryById id) w)
    = set_entries (delete id (entries (store w))) (store w).
Proof.
  unfold after, deleteEntryById, try_catch, doc_delete, mbind, M_bind.
  backend; [by left | by right].
Qed.













(** ** Metadata: saving and loading *)

Lemma saveMeta_rejected w meta e fs :
  faults w = Some e :: fs →
  saveMeta meta w = (Ret (failed (reason_of e)), tick w).
Proof.
  intros Hf. unfold saveMeta, try_catch, meta_set_merge, request, mbind, M_bind.
  by rewrite Hf.
Qed.



(** X9.  Saving what [loadMeta] returned, the backend answering: an existing
    metadata document is left exactly as it was; with no document stored the
    empty default is created. *)
Theorem saveMeta_of_loaded (w : World) :
  reliable w →
  ∃ meta,
    returned loadMeta w = Ret meta
    ∧ meta_doc (store (after (saveMeta meta) (after loadMeta w)))
      = Some (default empty_meta (meta_doc (store w)))
    ∧ entries (store (after (saveMeta meta) (after loadMeta w)))
      = entries (store w).
Proof.
  intros Hw. exists (default empty_meta (meta_doc (store w))).
  unfold returned, after. rewrite loadMeta_reliable by done. cbn [fst snd].
  rewrite saveMeta_reliable by solve_reliable. cbn.
  split_and!; [done | | done].
  destruct (meta_doc (store w)) as [d|]; [|done]. cbn.
  by rewrite merge_fields_diag.
Qed.

Lemma saveMeta_of_loaded_witness :
  meta_doc (store (after (saveMeta empty_meta)
                         (after loadMeta (quiet_world empty_db))))
  = Some empty_meta.
Proof.
  destruct (saveMeta_of_loaded (quiet_world empty_db) (quiet_world_reliable _))
    as (meta & Hm & Hst & _).
  assert (Ret meta = Ret empty_meta) as [= ->]
    by (rewrite <- Hm; vm_compute; reflexivity).
  exact Hst.
Defined.

(** ** Courses *)

Lemma courses_or_empty_inv (meta : gmap string value) cs :
  courses_or_empty meta = Ret cs →
  Js.or_else (Js.get meta "courses") (VArr []) = VArr cs.
Proof.
  unfold courses_or_empty.
  destruct (Js.or_else (Js.get meta "courses") (VArr [])); congruence.
Qed.

Lemma courses_or_empty_insert (meta : gmap string value) cs :
  courses_or_empty (<["courses" := VArr cs]> meta) = Ret cs.
Proof.
  unfold courses_or_empty, Js.or_else, Js.get. by rewrite lookup_insert_eq.
Qed.


Lemma find_course_cons id c r :
  c ≠ VUndef → c ≠ VNull →
  find_course id (c :: r)
  = if has_id id c then Ret (Some c) else find_course id r.
Proof. by destruct c. Qed.

Lemma remove_course_cons id c r :
  c ≠ VUndef → c ≠ VNull →
  remove_course id (c :: r)
  = match remove_course id r with
    | Ret rest' => Ret (if has_id id c then rest' else c :: rest')
    | Throw e => Throw e
    end.
Proof. by destruct c. Qed.

(** [filter] throws on a [null] course and else keeps, in their order, the
    courses whose id is not the given one. *)
Lemma remove_course_spec id cs kept :
  remove_course id cs = Ret kept →
  kept = filter (λ c, has_id id c = false) cs
  ∧ find_course id kept = Ret None
  ∧ remove_course id kept = Ret kept.
Proof.
  revert kept. induction cs as [|c cs IH]; intros kept.
  { intros [= <-]. done. }
  assert (c ≠ VUndef ∧ c ≠ VNull ∨ (c = VUndef ∨ c = VNull)) as [[Hu Hn]|Hnull]
    by (destruct c; first [ by left | right; by left | right; by right ]).
  2:{ by destruct Hnull as [-> | ->]. }
  rewrite remove_course_cons by done.
  destruct (remove_course id cs) as [rest'|e]; [|done].
  destruct (IH rest' eq_refl) as (Hf & Hfind & Hrem).
  rewrite filter_cons. destruct (has_id id c) eqn:Hc; intros [= <-].
  - rewrite decide_False by done. done.
  - rewrite decide_True by done. rewrite <- Hf. split; [done|].
    rewrite find_course_cons, remove_course_cons by done.
    by rewrite Hc, Hfind, Hrem.
Qed.


Lemma getStudentsForCourse_reliable w id cs :
  reliable w →
  courses_or_empty (default empty_meta (meta_doc (store w))) = Ret cs →
  returned (getStudentsForCourse id) w
  = Ret (match find_course id cs with
         | Ret (Some c) => Js.or_else (Js.prop c "students") (VArr [])
         | _ => VArr []
         end).
Proof.
  intros Hw Hcs.
  unfold returned, getStudentsForCourse, try_catch, mbind, M_bind.
  rewrite loadMeta_reliable by done. unfold lift. rewrite Hcs.
  by destruct (find_course id cs) as [[c|]|e].
Qed.

Lemma request_answered {A} (act : Db → outcome A * Db) w fs :
  faults w = None :: fs →
  request act w = (let '(r, s) := act (store w) in (r, set_store s (tick w))).
Proof. intros Hf. unfold request. by rewrite Hf. Qed.

Lemma request_rejected {A} (act : Db → outcome A * Db) w e fs :
  faults w = Some e :: fs → request act w = (Throw e, tick w).
Proof. intros Hf. unfold request. by rewrite Hf. Qed.

Lemma loadMeta_rejected w e fs :
  faults w = Some e :: fs → loadMeta w = (Ret empty_meta, tick w).
Proof.
  intros Hf. unfold loadMeta, try_catch, meta_get, mbind, M_bind.
  by rewrite (request_rejected _ w e fs Hf).
Qed.

Lemma loadMeta_answered w fs :
  faults w = None :: fs →
  loadMeta w = (Ret (default empty_meta (meta_doc (store w))), tick w).
Proof.
  intros Hf. unfold loadMeta, try_catch, meta_get, mbind, M_bind.
  rewrite (request_answered _ w fs Hf). by destruct (meta_doc (store w)).
Qed.


Lemma saveMeta_returns meta w : ∃ r, (saveMeta meta w).1 = Ret r.
Proof.
  unfold saveMeta, try_catch, meta_set_merge, mbind, M_bind.
  backend; by eauto.
Qed.

Section Courses.

Variable toUpperCase : string → string.



(** [addCourse] once the metadata is loaded as [meta], with courses [cs] none
    of which has the new id: what it hands to [saveMeta]. *)
Lemma addCourse_from_loaded w w1 name students meta cs :
  loadMeta w = (Ret meta, w1) →
  courses_or_empty meta = Ret cs →
  find_course (toUpperCase (remove_spaces name)) cs = Ret None →
  addCourse toUpperCase name students w
  = (Ret (ok_id (toUpperCase (remove_spaces name))),
     after (saveMeta (<["courses" := VArr (cs ++ [course_record (toUpperCase (remove_spaces name)) name students])]> meta))
           w1).
Proof.
  intros Hload Hcs Hfind.
  unfold addCourse, try_catch, mbind, M_bind, lift. rewrite Hload.
  rewrite (courses_or_empty_inv meta cs Hcs), courses_or_empty_insert, Hfind.
  rewrite insert_insert_eq. unfold after, course_record.
  destruct (saveMeta_returns
              (<["courses" := VArr (cs ++ [course_record (toUpperCase (remove_spaces name)) name students])]> meta) w1)
    as [r Hr]. unfold course_record in Hr.
  by destruct (saveMeta _ w1) as [[r'|e] w2].
Qed.




End Courses.

Lemma deleteCourse_from_loaded w w1 id meta cs kept :
  loadMeta w = (Ret meta, w1) →
  courses_or_empty meta = Ret cs →
  remove_course id cs = Ret kept →
  deleteCourse id w
  = (Ret ok_plain, after (saveMeta (<["courses" := VArr kept]> meta)) w1).
Proof.
  intros Hload Hcs Hkept.
  unfold deleteCourse, try_catch, mbind, M_bind, lift.
  rewrite Hload, Hcs, Hkept. unfold after.
  destruct (saveMeta_returns (<["courses" := VArr kept]> meta) w1) as [r Hr].
  by destruct (saveMeta _ w1) as [[r'|e] w2].
Qed.


Section CourseFailures.

Variable toUpperCase : string → string.

(** X11.  [addCourse] and [deleteCourse] do not look at what [saveMeta]
    returns: with the metadata read answered and the save rejected, both
    report success although the store is exactly as before. *)
Theorem course_updates_hide_rejected_save (w : World) (name id : string)
    (students : value) (cs kept : list value) (e : error)
    (fs : list (option error)) :
  faults w = None :: Some e :: fs →
  courses_or_empty (default empty_meta (meta_doc (store w))) = Ret cs →
  (find_course (toUpperCase (remove_spaces name)) cs = Ret None →
   returned (addCourse toUpperCase name students) w
   = Ret (ok_id (toUpperCase (remove_spaces name)))
   ∧ store (after (addCourse toUpperCase name students) w) = store w)
  ∧ (remove_course id cs = Ret kept →
     returned (deleteCourse id) w = Ret ok_plain
     ∧ store (after (deleteCourse id) w) = store w).
Proof.
  intros Hf Hcs.
  assert (faults (tick w) = Some e :: fs) as Hf1 by (cbn; by rewrite Hf).
  pose proof (loadMeta_answered w _ Hf) as Hload.
  split.
  - intros Hfind. unfold returned, after at 1.
    rewrite (addCourse_from_loaded toUpperCase w (tick w) name students _ cs
               Hload Hcs Hfind).
    unfold after. by rewrite (saveMeta_rejected _ _ e fs Hf1).
  - intros Hkept. unfold returned, after at 1.
    rewrite (deleteCourse_from_loaded w (tick w) id _ cs kept Hload Hcs Hkept).
    unfold after. by rewrite (saveMeta_rejected _ _ e fs Hf1).
Qed.


End CourseFailures.

(** X13.  [deleteCourse], the backend answering and no stored course being
    [null]: it reports success, the stored courses are the former ones
    without those of the given id, in their order, every other field of the
    metadata and the entries are as before; afterwards
    [getStudentsForCourse] on the id returns [[]], and a second
    [deleteCourse] changes nothing. *)
Theorem deleteCourse_removes (w : World) (id : string) (cs kept : list value) :
  reliable w →
  courses_or_empty (default empty_meta (meta_doc (store w))) = Ret cs →
  remove_course id cs = Ret kept →
  let deleted := after (deleteCourse id) w in
  returned (deleteCourse id) w = Ret ok_plain
  ∧ store deleted
    = set_meta (<["courses" := VArr (filter (λ c, has_id id c = false) cs)]>
                  (default empty_meta (meta_doc (store w)))) (store w)
  ∧ returned (getStudentsForCourse id) deleted = Ret (VArr [])
  ∧ store (after (deleteCourse id) deleted) = store deleted.
Proof.
  intros Hw Hcs Hkept deleted.
  destruct (remove_course_spec id cs kept Hkept) as (Hfilter & Hfind & Hagain).
  assert (∀ w' m, reliable w' → default empty_meta (meta_doc (store w')) = m →
            courses_or_empty m = Ret cs ∨ courses_or_empty m = Ret kept →
            ∀ cs', courses_or_empty m = Ret cs' → remove_course id cs' = Ret kept →
            deleteCourse id w'
            = (Ret ok_plain,
               set_store (set_meta (<["courses" := VArr kept]> m) (store w'))
                         (tick (tick w')))) as Hrun.
  { intros w' m Hw' Hm _ cs' Hcs' Hkept'.
    rewrite (deleteCourse_from_loaded w' (tick w') id m cs' kept); [| |done..].
    2:{ rewrite <- Hm. by apply loadMeta_reliable. }
    unfold after. rewrite saveMeta_reliable by solve_reliable. cbn.
    do 3 f_equal. subst m.
    destruct (meta_doc (store w')) as [d|]; [|done]. cbn.
    apply merge_fields_arrays_over, arrays_over_insert, arrays_over_refl. }
  pose proof (Hrun w _ Hw eq_refl (or_introl Hcs) cs Hcs Hkept) as Hfirst.
  assert (reliable deleted) as Hw1.
  { subst deleted. unfold after. rewrite Hfirst. cbn [snd]. solve_reliable. }
  assert (default empty_meta (meta_doc (store deleted))
          = <["courses" := VArr kept]> (default empty_meta (meta_doc (store w))))
    as Hmeta by (subst deleted; unfold after; by rewrite Hfirst).
  assert (courses_or_empty (default empty_meta (meta_doc (store deleted)))
          = Ret kept) as Hcs1 by (rewrite Hmeta; apply courses_or_empty_insert).
  split_and!.
  - unfold returned. by rewrite Hfirst.
  - subst deleted. unfold after. rewrite Hfirst. cbn. by rewrite Hfilter.
  - rewrite (getStudentsForCourse_reliable deleted id kept Hw1 Hcs1).
    by rewrite Hfind.
  - unfold after at 1.
    rewrite (Hrun deleted _ Hw1 eq_refl (or_intror Hcs1) kept Hcs1 Hagain).
    cbn [snd store set_store]. rewrite Hmeta, insert_insert_eq.
    subst deleted. unfold after. rewrite Hfirst. cbn. done.
Qed.

(** X14.  [getStudentsForCourse] never throws and never writes, whatever the
    backend answers and whatever the metadata holds.  It returns [[]] when
    the read is rejected, when there is no metadata document, when the
    courses are not an array, when a [null] course comes before a match, and
    when no course has the id; and the students of the first course with the
    id otherwise ([[]] when they are falsy). *)
Theorem getStudentsForCourse_defaults (w : World) (courseId : string) :
  store (after (getStudentsForCourse courseId) w) = store w
  ∧ ∃ v,
      returned (getStudentsForCourse courseId) w = Ret v
      ∧ ((∃ e fs, faults w = Some e :: fs) → v = VArr [])
      ∧ (meta_doc (store w) = None → v = VArr [])
      ∧ (∀ d, meta_doc (store w) = Some d →
           (∀ cs c, courses_or_empty d = Ret cs →
                    find_course courseId cs = Ret (Some c) → False) →
           v = VArr [])
      ∧ (∀ d cs c, reliable w → meta_doc (store w) = Some d →
           courses_or_empty d = Ret cs →
           find_course courseId cs = Ret (Some c) →
           v = Js.or_else (Js.prop c "students") (VArr [])).
Proof.
  split; [apply getStudentsForCourse_read_only|].
  unfold returned, getStudentsForCourse, try_catch, mbind, M_bind, lift.
  destruct (faults w) as [|[e|] fs] eqn:Hf.
  - assert (reliable w) as Hw by (unfold reliable; rewrite Hf; constructor).
    rewrite loadMeta_reliable by done.
    destruct (meta_doc (store w)) as [d|] eqn:Hd; cbn [default from_option id].
    + destruct (courses_or_empty d) as [cs|e] eqn:Hcs;
        [destruct (find_course courseId cs) as [[c|]|e] eqn:Hfind|];
        (eexists; split; [done|]); split_and!; try done;
        try (by intros (? & ? & ?)); try (intros d' [= <-] Hno; exfalso; by eauto);
        try (intros d' cs' c' _ [= <-]; congruence).
    + eexists; split; [done|]. split_and!; try done.
  - rewrite (loadMeta_rejected w e fs Hf).
    eexists; split; [done|]. split_and!; try done.
    intros d cs c Hw. unfold reliable in Hw. rewrite Hf in Hw.
    by inversion Hw.
  - rewrite (loadMeta_answered w fs Hf).
    destruct (meta_doc (store w)) as [d|] eqn:Hd; cbn [default from_option id].
    + destruct (courses_or_empty d) as [cs|e] eqn:Hcs;
        [destruct (find_course courseId cs) as [[c|]|e] eqn:Hfind|];
        (eexists; split; [done|]); split_and!; try done;
        try (by intros (? & ? & ?)); try (intros d' [= <-] Hno; exfalso; by eauto);
        try (intros d' cs' c' _ [= <-]; congruence).
    + eexists; split; [done|]. split_and!; try done.
Qed.

(** ** ensureDefaults: what it guarantees and when it gives up *)

Lemma empty_timetable_six days day :
  empty_timetable = VObj days → day ∈ week → six_slots days day.
Proof.
  intros [= <-] Hd.
  exists [VStr ""; VStr ""; VStr ""; VStr ""; VStr ""; VStr ""].
  split; [|done]. unfold week in Hd.
  repeat (apply elem_of_cons in Hd as [->|Hd]; [by vm_compute|]).
  by apply elem_of_nil in Hd.
Qed.

Lemma ensure_timetable_post c c' ch :
  ensure_timetable c = Ret (c', ch) → timetable_in_order c'.
Proof.
  assert (∀ (o : gmap string value), timetable_in_order
            (VObj (<["timetable" := empty_timetable]> o))) as Hempty.
  { intros o o' [= <-]. unfold Js.get. rewrite lookup_insert_eq.
    split; [done|]. intros days Hd day Hday.
    eapply empty_timetable_six; [|done]. congruence. }
  destruct c as [| | | | | |o]; cbn; try (intros [= <- <-]; by intros o' [=]).
  unfold Js.get.
  destruct (o !! "timetable") as [t|] eqn:Ht; cbn;
    [|intros [= <- <-]; apply Hempty].
  destruct (Js.truthy t) eqn:Htruthy; cbn; [|intros [= <- <-]; apply Hempty].
  destruct t as [| | | | |l|days]; try done.
  - intros [= <- <-] o' [= <-]. unfold Js.get. rewrite Ht.
    split; [done|]. by intros days [=].
  - destruct (fix_week days) as [days' chd] eqn:Hfix.
    intros [= <- <-] o' [= <-]. unfold Js.get. rewrite lookup_insert_eq.
    split; [done|]. intros days0 [= <-] day Hday.
    destruct (fix_days_spec week days false) as (Hin & _).
    unfold fix_week in Hfix. rewrite Hfix in Hin. by apply Hin.
Qed.

Lemma ensure_timetables_post l l' ch :
  ensure_timetables l = Ret (l', ch) → Forall timetable_in_order l'.
Proof.
  revert l' ch. induction l as [|c l IH]; intros l' ch; cbn.
  - intros [= <- <-]. constructor.
  - destruct (ensure_timetable c) as [[c' ch1]|e] eqn:Hc; [|done].
    destruct (ensure_timetables l) as [[l1 ch2]|e] eqn:Hl; [|done].
    intros [= <- <-]. constructor; [by eapply ensure_timetable_post | by eapply IH].
Qed.

Lemma ensure_timetables_null l :
  VNull ∈ l → ∃ e, ensure_timetables l = Throw e.
Proof.
  induction l as [|c l IH]; [by intros ?%elem_of_nil|].
  intros [<-|Hin]%elem_of_cons; cbn; [by eauto|].
  destruct (ensure_timetable c) as [[c' ch1]|e]; [|by eauto].
  destruct (IH Hin) as [e ->]. by eauto.
Qed.

(** The three [ensure_array] passes leave a truthy [courses] field alone. *)
Lemma ensure_arrays_courses (d : gmap string value) :
  Js.truthy (Js.get d "courses") = true →
  (ensure_array "teachers"
     (ensure_array "subjects" (ensure_array "courses" (d, false)))).1
    !! "courses" = d !! "courses".
Proof.
  intros Ht. rewrite (ensure_array_truthy "courses" d false Ht).
  destruct (ensure_array_spec "subjects" d false) as (_ & _ & Os & _).
  destruct (ensure_array "subjects" (d, false)) as [m2 c2]. cbn [fst snd] in *.
  destruct (ensure_array_spec "teachers" m2 c2) as (_ & _ & Ot & _).
  destruct (ensure_array "teachers" (m2, c2)) as [m3 c3]. cbn [fst snd] in *.
  by rewrite Ot, Os.
Qed.

Lemma ensure_meta_post d m ch :
  ensure_meta d = Ret (m, ch) →
  Js.truthy (Js.get m "courses") = true
  ∧ Js.truthy (Js.get m "subjects") = true
  ∧ Js.truthy (Js.get m "teachers") = true
  ∧ ∃ cs, m !! "courses" = Some (VArr cs) ∧ Forall timetable_in_order cs.
Proof.
  unfold ensure_meta.
  destruct (ensure_array_spec "courses" d false) as (Tc & _ & Oc & _).
  destruct (ensure_array "courses" (d, false)) as [m1 c1]. cbn [fst snd] in *.
  destruct (ensure_array_spec "subjects" m1 c1) as (Ts & _ & Os & _).
  destruct (ensure_array "subjects" (m1, c1)) as [m2 c2]. cbn [fst snd] in *.
  destruct (ensure_array_spec "teachers" m2 c2) as (Tt & _ & Ot & _).
  destruct (ensure_array "teachers" (m2, c2)) as [m3 c3]. cbn [fst snd] in *.
  destruct (courses_or_empty m3) as [l|e] eqn:Hl; [|done].
  destruct (ensure_timetables l) as [[l' ch']|e] eqn:Hl2; [|done].
  intros [= <- <-]. unfold Js.get in *.
  rewrite lookup_insert_eq, !lookup_insert_ne by done.
  split_and!; [done | by rewrite (Ot "subjects") | done |].
  exists l'. split; [done|]. by eapply ensure_timetables_post.
Qed.

(** What [ensureDefaults] returns and leaves, the backend answering, on a
    stored document. *)
Lemma ensureDefaults_on_document w d :
  reliable w → meta_doc (store w) = Some d →
  match ensure_meta d with
  | Ret (m, _) =>
      returned ensureDefaults w = Ret ok_plain
      ∧ store (after ensureDefaults w) = set_meta m (store w)
  | Throw e =>
      returned ensureDefaults w = Ret (failed (reason_of e))
      ∧ store (after ensureDefaults w) = store w
  end.
Proof.
  intros Hw Hd. unfold returned, after, ensureDefaults, try_catch, mbind, M_bind.
  rewrite loadMeta_reliable by done. rewrite Hd. cbn [default from_option id].
  unfold lift. destruct (ensure_meta d) as [[m [|]]|e] eqn:Hm; cbn [fst snd].
  - rewrite saveMeta_reliable by solve_reliable. cbn. rewrite Hd.
    apply ensure_meta_stable in Hm as (Hover & _).
    by rewrite merge_fields_arrays_over.
  - apply ensure_meta_stable in Hm as (_ & -> & _); [|done].
    split; [done|]. cbn. unfold set_meta. destruct (store w) as [md es].
    cbn in *. by rewrite Hd.
  - done.
Qed.

(** X15.  When [ensureDefaults] reports success on a stored metadata
    document (the backend answering), the document it leaves has truthy
    [courses], [subjects] and [teachers], its courses are an array, every
    course object in it has a truthy timetable, and every timetable that is
    an object holds an array of exactly six slots for each day from Monday
    to Friday.  Nothing but fields replaced by arrays separates it from the
    document before, and the entries are untouched. *)
Theorem ensureDefaults_timetables (w : World) (d : gmap string value) :
  reliable w → meta_doc (store w) = Some d →
  returned ensureDefaults w = Ret ok_plain →
  ∃ m cs,
    meta_doc (store (after ensureDefaults w)) = Some m
    ∧ entries (store (after ensureDefaults w)) = entries (store w)
    ∧ arrays_over m d
    ∧ Js.truthy (Js.get m "courses") = true
    ∧ Js.truthy (Js.get m "subjects") = true
    ∧ Js.truthy (Js.get m "teachers") = true
    ∧ m !! "courses" = Some (VArr cs)
    ∧ Forall timetable_in_order cs.
Proof.
  intros Hw Hd Hok.
  pose proof (ensureDefaults_on_document w d Hw Hd) as Hrun.
  destruct (ensure_meta d) as [[m ch]|e] eqn:Hm.
  - destruct Hrun as [_ Hst].
    destruct (ensure_meta_post d m ch Hm) as (Tc & Ts & Tt & cs & Hcs & Hall).
    destruct (ensure_meta_stable d m ch Hm) as (Hover & _).
    exists m, cs. rewrite Hst. split_and!; done.
  - destruct Hrun as [Hr _]. rewrite Hr in Hok. discriminate.
Qed.

Lemma ensureDefaults_on_default w w1 :
  loadMeta w = (Ret empty_meta, w1) →
  ensureDefaults w = (Ret ok_plain, w1).
Proof.
  intros Hload. unfold ensureDefaults, try_catch, mbind, M_bind, lift.
  rewrite Hload.
  assert (∃ m, ensure_meta empty_meta = Ret (m, false)) as [m ->]
    by (eexists; vm_compute; reflexivity).
  done.
Qed.

(** X16.  [ensureDefaults] does not create the metadata document: with none
    stored, and also whenever the read of it is rejected, it reports success
    and leaves the store exactly as it was, whatever the backend answers
    next. *)
Theorem ensureDefaults_creates_nothing (w : World) :
  meta_doc (store w) = None ∨ (∃ e fs, faults w = Some e :: fs) →
  returned ensureDefaults w = Ret ok_plain
  ∧ store (after ensureDefaults w) = store w.
Proof.
  intros Hcase.
  assert (loadMeta w = (Ret empty_meta, tick w)) as Hload.
  { destruct Hcase as [Hnone | (e & fs & Hf)];
      [|by apply (loadMeta_rejected w e fs)].
    unfold loadMeta, try_catch, meta_get, mbind, M_bind.
    backend; [done|]. by rewrite Hnone. }
  unfold returned, after. by rewrite (ensureDefaults_on_default w (tick w) Hload).
Qed.

Lemma ensureDefaults_creates_nothing_witness :
  returned ensureDefaults (quiet_world intro_db) = Ret ok_plain
  ∧ meta_doc (store (after ensureDefaults (quiet_world intro_db))) = None.
Proof.
  destruct (ensureDefaults_creates_nothing (quiet_world intro_db)) as [Hr Hst];
    [left; reflexivity|].
  split; [exact Hr | by rewrite Hst].
Defined.

(** X17.  [ensureDefaults] gives up on a document it cannot walk: when the
    stored [courses] is truthy and not an array, or is an array that contains
    [null], it returns [{ok: false, reason}] and writes nothing, not even the
    missing [subjects] or [teachers] (the backend answering). *)
Theorem ensureDefaults_gives_up (w : World) (d : gmap string value) :
  reliable w → meta_doc (store w) = Some d →
  (∃ cs, d !! "courses" = Some (VArr cs) ∧ VNull ∈ cs)
  ∨ (∃ v, d !! "courses" = Some v ∧ Js.truthy v = true ∧ ∀ cs, v ≠ VArr cs) →
  ∃ r, returned ensureDefaults w = Ret r ∧ ok r = false
       ∧ store (after ensureDefaults w) = store w.
Proof.
  intros Hw Hd Hbad.
  assert (∃ e, ensure_meta d = Throw e) as [e He].
  { assert (Js.truthy (Js.get d "courses") = true) as Ht.
    { unfold Js.get. destruct Hbad as [(cs & -> & _) | (v & -> & Hv & _)]; done. }
    pose proof (ensure_arrays_courses d Ht) as Hsame.
    unfold ensure_meta.
    destruct (ensure_array "teachers" _) as [m3 c3]. cbn [fst] in Hsame.
    unfold courses_or_empty, Js.or_else, Js.get. rewrite Hsame.
    destruct Hbad as [(cs & Hcs & Hnull) | (v & Hv & Hvt & Hna)].
    - rewrite Hcs. cbn. destruct (ensure_timetables_null cs Hnull) as [e ->].
      by eauto.
    - rewrite Hv. cbn. rewrite Hvt.
      destruct v; try by eauto. by destruct (Hna l). }
  pose proof (ensureDefaults_on_document w d Hw Hd) as Hrun.
  rewrite He in Hrun. destruct Hrun as [Hr Hst].
  by exists (failed (reason_of e)).
Qed.

(** ** The API as a whole *)

Lemma try_catch_returns {A} (body : M A) (h : error → A) w :
  ∃ a, (try_catch body (λ err, mret (h err)) w).1 = Ret a.
Proof.
  unfold try_catch. destruct (body w) as [[a|e] w']; by eauto.
Qed.

Lemma toggleLockEntry_cases w id :
  store (after (toggleLockEntry id) w) = store w
  ∨ ∃ cur, entries (store w) !! id = Some cur
           ∧ store (after (toggleLockEntry id) w)
             = set_entries (<[id := <["locked" := VBool (negb (is_locked cur))]> cur]>
                              (entries (store w))) (store w).
Proof.
  unfold after, toggleLockEntry, try_catch, doc_get, doc_update, mbind, M_bind.
  backend; [by left|].
  destruct (entries (store w) !! id) as [cur|] eqn:Hcur; [|by left].
  backend; [by left|]. rewrite Hcur, toggled_doc. right. by exists cur.
Qed.

Section Api.

Variable order_by_date_hour :
  list (string * gmap string value) → list (string * gmap string value).
Variable toUpperCase : string → string.

(** X18.  No call of the API throws, whatever the arguments, the store and
    the answers of the backend: every failure is caught and turned into a
    returned value. *)
Theorem api_never_throws (c : call) (w : World) :
  returned (run order_by_date_hour toUpperCase c) w = Ret ().
Proof.
  assert (∀ {A} (m : M A), (∃ a, (m w).1 = Ret a) →
            returned (m ≫= λ _, mret ()) w = Ret ()) as Hdrop.
  { intros A m [a Ha]. unfold returned, mbind, M_bind.
    destruct (m w) as [[a'|e] w']; cbn in *; [done | discriminate]. }
  destruct c; unfold run; apply Hdrop.
  - unfold loadMeta. apply (try_catch_returns _ (λ _, empty_meta)).
  - unfold saveMeta. apply (try_catch_returns _ (λ e, failed (reason_of e))).
  - unfold loadEntries, try_catch, query_by_date_hour, query_all, mbind, M_bind.
    backend; [backend|]; by eauto.
  - unfold addEntry. apply (try_catch_returns _ (λ e, failed (reason_of e))).
  - unfold updateEntry. apply (try_catch_returns _ (λ e, failed (reason_of e))).
  - unfold deleteEntryById. apply (try_catch_returns _ (λ e, failed (reason_of e))).
  - unfold toggleLockEntry. apply (try_catch_returns _ (λ e, failed (reason_of e))).
  - unfold getStudentsForCourse. apply (try_catch_returns _ (λ _, VArr [])).
  - unfold addCourse. apply (try_catch_returns _ (λ e, failed (reason_of e))).
  - unfold deleteCourse. apply (try_catch_returns _ (λ e, failed (reason_of e))).
  - unfold ensureDefaults. apply (try_catch_returns _ (λ e, failed (reason_of e))).
Qed.

(** X19.  Entries and metadata are kept apart, whatever the backend
    answers: the calls on entries and the two loads never change the
    metadata document, and the calls on metadata and courses never change an
    entry. *)
Theorem api_keeps_collections_apart (c : call) (w : World) :
  match c with
  | LoadMeta | LoadEntries | GetStudentsForCourse _ =>
      store (after (run order_by_date_hour toUpperCase c) w) = store w
  | AddEntry _ | UpdateEntry _ _ | DeleteEntryById _ | ToggleLockEntry _ =>
      meta_doc (store (after (run order_by_date_hour toUpperCase c) w))
      = meta_doc (store w)
  | SaveMeta _ | AddCourse _ _ | DeleteCourse _ | EnsureDefaults =>
      entries (store (after (run order_by_date_hour toUpperCase c) w))
      = entries (store w)
  end.
Proof.
  destruct c as [|meta| |entry|oldId data|i|i|courseId|name students|i|];
    unfold run; rewrite after_discard; unfold after.
  - apply loadMeta_read_only.
  - apply saveMeta_keeps.
  - apply loadEntries_read_only.
  - destruct (addEntry_cases w entry)
      as (r & _ & [(_ & _ & Hst) | [_ Hst]]);
      unfold after in Hst; by rewrite Hst.
  - destruct (updateEntry_cases w oldId data)
      as (r & _ & [[_ Hst] | (id' & cur' & _ & _ & _ & _
                   & [(_ & _ & Hst) | (_ & _ & _ & Hst)])]);
      unfold after in Hst; by rewrite Hst.
  - destruct (deleteEntryById_cases w i) as [Hst | Hst];
      unfold after in Hst; by rewrite Hst.
  - destruct (toggleLockEntry_cases w i) as [Hst | (cur & _ & Hst)];
      unfold after in Hst; by rewrite Hst.
  - apply getStudentsForCourse_read_only.
  - apply addCourse_keeps.
  - apply deleteCourse_keeps.
  - apply ensureDefaults_keeps.
Qed.

(** X20.  What [loadEntries] returns, whatever the backend answers, the
    ordered query returning only documents it was given: every element is a
    stored entry with all its fields, and it carries the document id under
    [id] unless the entry stores a field [id] of its own, which then takes
    its place. *)
Theorem loadEntries_views (w : World) (v : gmap string value)
    (l : list (gmap string value)) :
  (∀ docs p, p ∈ order_by_date_hour docs → p ∈ docs) →
  returned (loadEntries order_by_date_hour) w = Ret l → v ∈ l →
  ∃ id d,
    entries (store w) !! id = Some d
    ∧ (∀ k x, d !! k = Some x → v !! k = Some x)
    ∧ (d !! "id" = None → v !! "id" = Some (VStr id))
    ∧ (∀ k, k ≠ "id" → v !! k = d !! k).
Proof.
  intros Hsub Hl Hv.
  assert (∃ p, p ∈ map_to_list (entries (store w)) ∧ v = entry_view p)
    as ([id d] & Hp & ->).
  { revert Hl.
    unfold returned, loadEntries, try_catch, query_by_date_hour, query_all,
      mbind, M_bind.
    backend.
    - backend; intros [= <-]; [by apply elem_of_nil in Hv|].
      apply list_elem_of_fmap in Hv as (p & -> & Hp). by exists p.
    - intros [= <-]. apply list_elem_of_fmap in Hv as (p & -> & Hp).
      apply Hsub, list_elem_of_filter in Hp as [_ Hp]. by exists p. }
  apply elem_of_map_to_list in Hp. exists id, d. unfold entry_view. cbn.
  split_and!; [done | | |].
  - intros k x Hk. by apply lookup_union_Some_l.
  - intros Hnone. rewrite lookup_union_r by done. apply lookup_singleton_eq.
  - intros k Hk. destruct (d !! k) as [x|] eqn:Hx.
    + by apply lookup_union_Some_l.
    + rewrite lookup_union_r by done. by apply lookup_singleton_ne.
Qed.

End Api.

(** ** The opaque-id variant *)


(** ** The seeding variant: metadata and courses *)

Lemma or_else_array_truthy v l : Js.truthy (Js.or_else v (VArr l)) = true.
Proof. unfold Js.or_else. by destruct (Js.truthy v) eqn:E. Qed.

Lemma seeding_loadMeta_any w :
  ∃ meta w1,
    Seeding.loadMeta w = (Ret meta, w1) ∧ store w1 = store w
    ∧ (meta = empty_meta
       ∨ ∃ d cs', meta_doc (store w) = Some d
                  ∧ meta = <["courses" := VArr cs']> (Seeding.convert_names d)
                  ∧ Forall (λ c, repaired c ∨ c = Seeding.blank_course) cs').
Proof.
  unfold Seeding.loadMeta, try_catch, meta_get, mbind, M_bind.
  backend; [do 2 eexists; split_and!; [done..|by left]|].
  change (set_store (store w) (tick w)) with (tick w).
  destruct (meta_doc (store w)) as [d|] eqn:Hd;
    [|do 2 eexists; split_and!; [done..|by left]].
  unfold lift.
  destruct (courses_or_empty (Seeding.convert_names d)) as [cs|e];
    [|do 2 eexists; split_and!; [done..|by left]].
  destruct (map_m_repair_spec cs (tick w)) as [[Hst _] Hcs].
  destruct (Seeding.map_m Seeding.repair_course cs (tick w)) as [[cs'|e] w1];
    cbn [fst snd] in *; [|do 2 eexists; split_and!; [done..|by left]].
  destruct (Hcs cs' eq_refl) as [_ Hall].
  do 2 eexists. split_and!; [done..|]. right. by exists d, cs'.
Qed.

(** X22.  The seeding variant's [loadMeta] never throws and never writes,
    whatever the backend answers, and what it returns always lists its
    courses in an array of records that are repaired or blank: no [null] and
    no primitive is left among them.  The backend answering, a document in
    the older layout, its courses a list of non-empty names, comes back with
    one course object per name, the name as [id] and [name] and the
    document's [students] (or [[]]) as the students. *)
Theorem seeding_loadMeta_courses (w : World) :
  store (after Seeding.loadMeta w) = store w
  ∧ (∃ meta cs,
       returned Seeding.loadMeta w = Ret meta
       ∧ meta !! "courses" = Some (VArr cs)
       ∧ Forall (λ c, repaired c ∨ c = Seeding.blank_course) cs)
  ∧ (∀ d name names,
       reliable w → meta_doc (store w) = Some d →
       d !! "courses" = Some (VArr (VStr <$> name :: names)) →
       Forall (λ n, n ≠ "") (name :: names) →
       returned Seeding.loadMeta w
       = Ret (<["courses" :=
                  VArr ((λ n, VObj {[ "id" := VStr n; "name" := VStr n;
                                      "students" :=
                                        Js.or_else (Js.get d "students") (VArr []) ]})
                          <$> name :: names)]> d)).
Proof.
  split_and!.
  - destruct (seeding_loadMeta_any w) as (meta & w1 & Hrun & Hst & _).
    unfold after. by rewrite Hrun.
  - destruct (seeding_loadMeta_any w) as (meta & w1 & Hrun & _ & Hmeta).
    unfold returned. rewrite Hrun. cbn [fst].
    destruct Hmeta as [-> | (d & cs' & _ & -> & Hall)].
    + exists empty_meta, []. split_and!; [done | done | constructor].
    + do 2 eexists. split_and!; [done | apply lookup_insert_eq | done].
  - intros d name names Hw Hd Hcs Hne.
    unfold returned, Seeding.loadMeta, try_catch, meta_get, mbind, M_bind.
    backend_ok. rewrite Hd. unfold lift.
    set (converted := (λ n, VObj {[ "id" := VStr n; "name" := VStr n;
                                    "students" :=
                                      Js.or_else (Js.get d "students") (VArr []) ]})
                        <$> name :: names).
    assert (Seeding.convert_names d = <["courses" := VArr converted]> d) as ->.
    { unfold Seeding.convert_names, Js.get at 1. rewrite Hcs. cbn.
      subst converted. unfold Seeding.course_of_name. cbn.
      do 4 f_equal. by rewrite <- list_fmap_compose. }
    rewrite courses_or_empty_insert.
    assert (Forall repaired converted) as Hall.
    { subst converted. apply Forall_fmap. eapply Forall_impl; [exact Hne|].
      intros n Hn. cbn. unfold Js.get. simplify_map_eq. split.
      - apply or_else_array_truthy.
      - cbn. by destruct (String.eqb_spec n ""). }
    pose proof (map_m_repair_repaired converted
                  (set_store (store w) (tick w)) Hall) as Hr.
    destruct (Seeding.map_m Seeding.repair_course converted _) as [[r|e] w1];
      cbn [fst] in Hr; [|done]. injection Hr as ->.
    by rewrite insert_insert_eq.
Qed.

(** ** The seeding variant: one entry per natural key, by query *)



Section SeedingEntries.

Variable order_by_id :
  list (string * gmap string value) → list (string * gmap string value).

(** The query returns the documents it selects, each once. *)
Hypothesis order_by_id_perm : ∀ l, order_by_id l ≡ₚ l.







End SeedingEntries.

(** ** The seeding variant: courses and their students *)

Lemma course_objects_repaired cs :
  Forall course_object cs → Forall repaired cs.
Proof. intros Hall. eapply Forall_impl; [exact Hall|]. by intros []. Qed.





(** On a repaired metadata document the seeding variant loads what is
    stored. *)
Lemma seeding_getStudents_settled w id meta cs :
  reliable w → meta_doc (store w) = Some meta →
  meta !! "courses" = Some (VArr cs) → Forall repaired cs →
  returned (Seeding.getStudentsForCourse id) w
  = Ret (match find_course id cs with
         | Ret (Some c) => Js.or_else (Js.prop c "students") (VArr [])
         | _ => VArr []
         end).
Proof.
  intros Hw Hd Hcs Hall.
  unfold returned, Seeding.getStudentsForCourse, try_catch, mbind, M_bind, lift.
  destruct (seeding_loadMeta_settled w meta cs Hw Hd Hcs Hall) as (w1 & -> & _).
  assert (courses_or_empty meta = Ret cs) as ->.
  { unfold courses_or_empty, Js.or_else, Js.get. by rewrite Hcs. }
  by destruct (find_course id cs) as [[c|]|e].
Qed.

(** What the course operations of the seeding variant save, and where. *)
Lemma seeding_save_courses w w1 meta cs cs' :
  reliable w → meta_doc (store w) = Some meta →
  meta !! "courses" = Some (VArr cs) → same_backend (tick w) w1 →
  ∃ w2, Seeding.saveMeta (<["courses" := VArr cs']> meta) w1 = (Ret ok_plain, w2)
        ∧ reliable w2
        ∧ store w2 = set_meta (<["courses" := VArr cs']> meta) (store w).
Proof.
  intros Hw Hd Hcs Hb.
  assert (reliable w1) as Hw1 by by eapply tick_same_backend_reliable.
  destruct Hb as [Hst _]. cbn [store tick] in Hst.
  rewrite seeding_saveMeta_reliable by done. rewrite Hst, Hd.
  eexists. split_and!; [done | solve_reliable |]. cbn.
  rewrite merge_fields_arrays_over; [done|].
  apply arrays_over_insert, arrays_over_refl.
Qed.


Lemma repaired_remove_total id cs :
  Forall repaired cs →
  ∃ kept, remove_course id cs = Ret kept ∧ Forall repaired kept.
Proof.
  induction 1 as [|c cs Hc _ (kept & IH & Hkept)]; [by eexists|].
  rewrite remove_course_cons by (by destruct c). rewrite IH.
  destruct (has_id id c); eexists; (split; [done|]);
    first [ done | by constructor ].
Qed.


(** X27.  [deleteCourse] of the seeding variant, the backend answering, on a
    metadata document whose courses are objects with truthy [students] and
    [id]: it reports success whether or not a course has the id, the stored
    courses are the former ones without those of the id, the entries are as
    before, and [getStudentsForCourse] on the id then returns [[]]. *)
Theorem seeding_deleteCourse_removes (w : World) (courseId : string)
    (meta : gmap string value) (cs : list value) :
  reliable w → meta_doc (store w) = Some meta →
  meta !! "courses" = Some (VArr cs) → Forall course_object cs →
  let deleted := after (Seeding.deleteCourse courseId) w in
  returned (Seeding.deleteCourse courseId) w = Ret ok_plain
  ∧ store deleted
    = set_meta (<["courses" := VArr (filter (λ c, has_id courseId c = false) cs)]>
                  meta) (store w)
  ∧ returned (Seeding.getStudentsForCourse courseId) deleted = Ret (VArr []).
Proof.
  intros Hw Hd Hcs Hall%course_objects_repaired deleted.
  destruct (seeding_loadMeta_settled w meta cs Hw Hd Hcs Hall)
    as (w1 & Hload & Hb).
  assert (courses_or_empty meta = Ret cs) as Hco.
  { unfold courses_or_empty, Js.or_else, Js.get. by rewrite Hcs. }
  destruct (repaired_remove_total courseId cs Hall) as (kept & Hkept & Hall2).
  destruct (remove_course_spec courseId cs kept Hkept) as (Hfilter & Hfind & _).
  destruct (seeding_save_courses w w1 meta cs kept Hw Hd Hcs Hb)
    as (w2 & Hsave & Hw2 & Hst2).
  assert (Seeding.deleteCourse courseId w = (Ret ok_plain, w2)) as Hrun.
  { unfold Seeding.deleteCourse, try_catch, mbind, M_bind, lift.
    by rewrite Hload, Hco, Hkept, Hsave. }
  subst deleted. unfold after. rewrite Hrun. cbn [snd].
  split_and!.
  - unfold returned. by rewrite Hrun.
  - by rewrite Hst2, Hfilter.
  - rewrite (seeding_getStudents_settled w2 courseId
               (<["courses" := VArr kept]> meta) kept);
      [| done | by rewrite Hst2 | apply lookup_insert_eq | done].
    by rewrite Hfind.
Qed.

(** ** The further statements at concrete stores *)


Lemma course_updates_hide_rejected_save_witness :
  (returned (addCourse upper_case "bio 1" (VArr [])) save_rejected_world
   = Ret (ok_id "BIO1")
   ∧ store (after (addCourse upper_case "bio 1" (VArr [])) save_rejected_world)
     = catalog_db)
  ∧ (returned (deleteCourse "RSA261") save_rejected_world = Ret ok_plain
     ∧ store (after (deleteCourse "RSA261") save_rejected_world) = catalog_db).
Proof.
  destruct (course_updates_hide_rejected_save upper_case save_rejected_world
              "bio 1" "RSA261" (VArr []) [rsa261; rsa262] [rsa262]
              unavailable [])
    as [Hadd Hdelete]; [reflexivity | vm_compute; reflexivity |].
  split; [apply Hadd | apply Hdelete]; vm_compute; reflexivity.
Defined.


Lemma deleteCourse_removes_witness :
  returned (deleteCourse "RSA261") (quiet_world catalog_db) = Ret ok_plain
  ∧ store (after (deleteCourse "RSA261") (quiet_world catalog_db))
    = set_meta (<["courses" := VArr [rsa262]]> catalog) catalog_db
  ∧ returned (getStudentsForCourse "RSA261")
             (after (deleteCourse "RSA261") (quiet_world catalog_db))
    = Ret (VArr []).
Proof.
  destruct (deleteCourse_removes (quiet_world catalog_db) "RSA261"
              [rsa261; rsa262] [rsa262])
    as (Hdelete & Hstore & Hget & _);
    [apply quiet_world_reliable | vm_compute; reflexivity
     | vm_compute; reflexivity |].
  split_and!; [exact Hdelete | exact Hstore | exact Hget].
Defined.

Lemma ensureDefaults_timetables_witness :
  ∃ m cs,
    meta_doc (store (after ensureDefaults (quiet_world short_monday_db))) = Some m
    ∧ Js.truthy (Js.get m "subjects") = true
    ∧ m !! "courses" = Some (VArr cs)
    ∧ Forall timetable_in_order cs.
Proof.
  destruct (ensureDefaults_timetables (quiet_world short_monday_db)
              {[ "courses" :=
                   VArr [VObj {[ "id" := VStr "RSA261"; "name" := VStr "RSA261";
                                 "timetable" :=
                                   VObj {[ "mon" := VArr [VStr "Ma"; VStr "De"] ]} ]}];
                 "teachers" := VArr [VStr "Herr Schmidt"] ]})
    as (m & cs & Hm & _ & _ & _ & Hs & _ & Hcs & Hall);
    [apply quiet_world_reliable | reflexivity | vm_compute; reflexivity |].
  exists m, cs. split_and!; [exact Hm | exact Hs | exact Hcs | exact Hall].
Defined.

Lemma ensureDefaults_gives_up_witness :
  ∃ r, returned ensureDefaults (quiet_world null_course_db) = Ret r
       ∧ ok r = false
       ∧ store (after ensureDefaults (quiet_world null_course_db))
         = null_course_db.
Proof.
  apply (ensureDefaults_gives_up (quiet_world null_course_db)
           {[ "courses" := VArr [VNull; rsa262] ]});
    [apply quiet_world_reliable | reflexivity |].
  left. exists [VNull; rsa262]. split; [reflexivity | apply list_elem_of_here].
Defined.

Lemma loadEntries_views_witness :
  ∃ id d,
    entries (store (quiet_world two_entries_db)) !! id = Some d
    ∧ (∀ k x, d !! k = Some x →
              entry_view ("RSA261__2024-05-02__1", next_day_entry) !! k = Some x)
    ∧ (d !! "id" = None →
       entry_view ("RSA261__2024-05-02__1", next_day_entry) !! "id"
       = Some (VStr id))
    ∧ (∀ k, k ≠ "id" →
            entry_view ("RSA261__2024-05-02__1", next_day_entry) !! k = d !! k).
Proof.
  apply (loadEntries_views (λ l, l) (quiet_world two_entries_db)
           (entry_view ("RSA261__2024-05-02__1", next_day_entry))
           [entry_view ("RSA261__2024-05-01__1", intro_entry);
            entry_view ("RSA261__2024-05-02__1", next_day_entry)]);
    [intros docs p Hp; exact Hp | vm_compute; reflexivity
     | apply list_elem_of_further, list_elem_of_here].
Defined.



Lemma catalog_course_objects : Forall course_object [rsa261; rsa262].
Proof. repeat constructor. Defined.



Lemma seeding_deleteCourse_removes_witness :
  returned (Seeding.deleteCourse "RSA261") (quiet_world catalog_db) = Ret ok_plain
  ∧ store (after (Seeding.deleteCourse "RSA261") (quiet_world catalog_db))
    = set_meta (<["courses" := VArr [rsa262]]> catalog) catalog_db
  ∧ returned (Seeding.getStudentsForCourse "RSA261")
             (after (Seeding.deleteCourse "RSA261") (quiet_world catalog_db))
    = Ret (VArr []).
Proof.
  destruct (seeding_deleteCourse_removes (quiet_world catalog_db) "RSA261"
              catalog [rsa261; rsa262])
    as (Hdelete & Hstore & Hget);
    [apply quiet_world_reliable | reflexivity | vm_compute; reflexivity
     | apply catalog_course_objects |].
  split_and!; [exact Hdelete | exact Hstore | exact Hget].
Defined.

Lemma getStudentsForCourse_defaults_witness :
  returned (getStudentsForCourse "RSA261") (quiet_world catalog_db)
  = Ret (VArr [VStr "Anna"; VStr "Ben"])
  ∧ returned (getStudentsForCourse "RSA261") read_rejected_world = Ret (VArr []).
Proof.
  split.
  - destruct (getStudentsForCourse_defaults (quiet_world catalog_db) "RSA261")
      as (_ & v & Hv & _ & _ & _ & Hfound).
    rewrite Hv. f_equal.
    apply (Hfound catalog [rsa261; rsa262] rsa261);
      [apply quiet_world_reliable | reflexivity | vm_compute; reflexivity
       | vm_compute; reflexivity].
  - destruct (getStudentsForCourse_defaults read_rejected_world "RSA261")
      as (_ & v & Hv & Hrejected & _).
    rewrite Hv. f_equal. apply Hrejected. by exists unavailable, [].
Defined.


Lemma seeding_loadMeta_courses_witness :
  returned Seeding.loadMeta (quiet_world names_db)
  = Ret (<["courses" :=
             VArr [VObj {[ "id" := VStr "RSA261"; "name" := VStr "RSA261";
                           "students" := VArr [VStr "Anna"; VStr "Ben"] ]};
                   VObj {[ "id" := VStr "RSA262"; "name" := VStr "RSA262";
                           "students" := VArr [VStr "Anna"; VStr "Ben"] ]}]]>
           names_meta).
Proof.
  destruct (seeding_loadMeta_courses (quiet_world names_db)) as (_ & _ & Hnames).
  apply (Hnames names_meta "RSA261" ["RSA262"]);
    [apply quiet_world_reliable | reflexivity | vm_compute; reflexivity |].
  repeat constructor; discriminate.
Defined.
